(** * QueryOrchestrator: routing, fan-out, ranking and formatting

    A shallow embedding of [services/QueryOrchestrator.ts] and of the
    parts of the ECMAScript library it relies on ([Array.prototype.filter],
    [sort], [slice], plain objects used as maps), followed by the
    properties of the orchestration layer. *)

From Stdlib Require Import List String Ascii Bool Arith NArith ZArith QArith.
From Stdlib Require Import Lia Lqa Qround Permutation Sorted DecimalString.
Import ListNotations.

Set Implicit Arguments.
Close Scope Q_scope.

(* ================================================================= *)
(** ** Completions: a call either returns a value or throws *)

Inductive Completion (A : Type) : Type :=
| Normal (v : A)
| Throw (e : string).

Arguments Normal {A} v.
Arguments Throw {A} e.

Definition bind {A B : Type} (c : Completion A) (k : A -> Completion B)
  : Completion B :=
  match c with
  | Normal v => k v
  | Throw e => Throw e
  end.

Notation "x <- c ;; k" := (bind c (fun x => k))
  (at level 61, c at next level, right associativity).

Definition isNormal {A : Type} (c : Completion A) : bool :=
  match c with Normal _ => true | Throw _ => false end.

(* ================================================================= *)
(** ** Data model ([datasources/interfaces/IDataSource.ts]) *)

(** [relevanceScore] is a JavaScript number; the data model takes it to be
    a real number, and on such values the sign of [b - a] is the sign of
    the exact difference, so scores are rationals here. *)
Record SearchResult : Type := {
  source : string;
  title : string;
  content : string;
  url : option string;
  relevanceScore : Q;
  metadata : option (list (string * string))
}.

(** [search] is asynchronous: its promise is fulfilled with the results or
    rejected, and [await] turns a rejection into a throw.  [isRelevantFor]
    is an ordinary call, which returns a boolean or throws. *)
Record IDataSource : Type := {
  name : string;
  search : string -> Completion (list SearchResult);
  isRelevantFor : string -> Completion bool
}.

Module SearchProgress.
Inductive Status : Type := searching | completed | error.

Record t : Type := {
  source : string;
  status : Status;
  resultCount : option nat
}.

Definition Status_eqb (a b : Status) : bool :=
  match a, b with
  | searching, searching | completed, completed | error, error => true
  | _, _ => false
  end.
End SearchProgress.

(* ================================================================= *)
(** ** The parts of the ECMAScript library the orchestrator uses *)

Module JS.

(** [Array.prototype.filter] with a predicate that may throw: the
    elements are visited in index order and the first throw aborts. *)
Fixpoint filter {A : Type} (p : A -> Completion bool) (l : list A)
  : Completion (list A) :=
  match l with
  | [] => Normal []
  | x :: rest =>
      b <- p x ;;
      kept <- filter p rest ;;
      Normal (if b then x :: kept else kept)
  end.

(** [Array.prototype.slice(0, end)] for an integer [end]: a negative
    [end] counts from the end of the array. *)
Definition slice0 {A : Type} (l : list A) (end_ : Z) : list A :=
  let len := Z.of_nat (List.length l) in
  let final := if (end_ <? 0)%Z then Z.max (len + end_) 0 else Z.min end_ len in
  firstn (Z.to_nat final) l.

(** [Array.prototype.sort(compareFn)]: a stable sort; [compareFn a b < 0]
    places [a] before [b].  [insert x l] puts [x], which preceded the
    elements of [l] in the input, in front of the first element that is
    not required to come strictly before it. *)
Section Sort.
Variable A : Type.
Variable compareFn : A -> A -> Q.

Definition negative (q : Q) : bool := negb (Qle_bool 0 q).

Fixpoint insert (x : A) (l : list A) : list A :=
  match l with
  | [] => [x]
  | y :: rest =>
      if negative (compareFn y x) then y :: insert x rest
      else x :: y :: rest
  end.

Fixpoint sort (l : list A) : list A :=
  match l with
  | [] => []
  | x :: rest => insert x (sort rest)
  end.
End Sort.

(** [String(n)] for a non-negative integer. *)
Definition toString (n : nat) : string :=
  NilEmpty.string_of_uint (Nat.to_uint n).

(** Template literals concatenate their pieces. *)
Definition template (pieces : list string) : string :=
  fold_right String.append EmptyString pieces.

Definition LF : string := String (ascii_of_nat 10) EmptyString.

(** *** Plain objects used as maps ([{} as Record<string, V>]) *)
Module Obj.

(** The own properties, in creation order. *)
Definition t (V : Type) : Type := list (string * V).

Definition empty {V : Type} : t V := [].

(** The properties every object literal inherits from
    [Object.prototype]; all of them hold functions, except
    [__proto__], whose getter yields [Object.prototype] itself. *)
Definition inherited : list string :=
  [ "constructor"; "__defineGetter__"; "__defineSetter__";
    "hasOwnProperty"; "__lookupGetter__"; "__lookupSetter__";
    "isPrototypeOf"; "propertyIsEnumerable"; "toString"; "valueOf";
    "__proto__"; "toLocaleString" ]%string.

Definition isInherited (k : string) : bool :=
  existsb (String.eqb k) inherited.

Fixpoint getOwn {V : Type} (o : t V) (k : string) : option V :=
  match o with
  | [] => None
  | (k', v) :: rest => if String.eqb k' k then Some v else getOwn rest k
  end.

(** What [o[k]] evaluates to. *)
Inductive Value (V : Type) : Type :=
| Own (v : V)
| FromPrototype
| Undefined.
Arguments Own {V} v.
Arguments FromPrototype {V}.
Arguments Undefined {V}.

Definition get {V : Type} (o : t V) (k : string) : Value V :=
  match getOwn o k with
  | Some v => Own v
  | None => if isInherited k then FromPrototype else Undefined
  end.

(** [o[k] = v]: an existing own property keeps its place, a new one
    is created last. *)
Fixpoint set {V : Type} (o : t V) (k : string) (v : V) : t V :=
  match o with
  | [] => [(k, v)]
  | (k', v') :: rest =>
      if String.eqb k' k then (k', v) :: rest
      else (k', v') :: set rest k v
  end.

(** Array indices: the canonical decimal strings of the integers
    below [2^32 - 1]. *)
Fixpoint digits (s : string) (acc : N) : option N :=
  match s with
  | EmptyString => Some acc
  | String c rest =>
      let d := N_of_ascii c in
      if ((48 <=? d) && (d <=? 57))%N
      then digits rest (10 * acc + (d - 48))%N
      else None
  end.

Definition arrayIndex (k : string) : option N :=
  match k with
  | EmptyString => None
  | String c rest =>
      if (Ascii.eqb c "0" && negb (String.eqb rest EmptyString))%bool
      then None
      else match digits k 0%N with
           | Some n => if (n <? 4294967295)%N then Some n else None
           | None => None
           end
  end.

Definition isArrayIndex (k : string) : bool :=
  match arrayIndex k with Some _ => true | None => false end.

Fixpoint insertIndex {V : Type} (n : N) (e : string * V)
  (l : list (N * (string * V))) : list (N * (string * V)) :=
  match l with
  | [] => [(n, e)]
  | (m, e') :: rest =>
      if (m <? n)%N then (m, e') :: insertIndex n e rest
      else (n, e) :: (m, e') :: rest
  end.

Fixpoint indexEntries {V : Type} (o : t V) : list (N * (string * V)) :=
  match o with
  | [] => []
  | (k, v) :: rest =>
      match arrayIndex k with
      | Some n => insertIndex n (k, v) (indexEntries rest)
      | None => indexEntries rest
      end
  end.

(** [Object.entries(o)]: array-index keys first, in ascending numeric
    order, then the other keys in creation order. *)
Definition entries {V : Type} (o : t V) : list (string * V) :=
  map snd (indexEntries o)
  ++ List.filter (fun e => negb (isArrayIndex (fst e))) o.

(** [Object.keys(o)]. *)
Definition keys {V : Type} (o : t V) : list string :=
  map fst (entries o).

End Obj.

End JS.

(* ================================================================= *)
(** ** [services/QueryOrchestrator.ts] *)

Module QueryOrchestrator.

(** *** Ranking and deduplication *)

(** [(a, b) => b.relevanceScore - a.relevanceScore] *)
Definition compareFn (a b : SearchResult) : Q :=
  relevanceScore b - relevanceScore a.

(** [`${result.title}-${result.source}`] *)
Definition key (result : SearchResult) : string :=
  JS.template [title result; "-"%string; source result].

(** [seen.has(key)] on a [Set<string>] *)
Definition has (seen : list string) (k : string) : bool :=
  existsb (String.eqb k) seen.

(** One turn of the [for (const result of sorted)] loop, on the pair of
    [unique] and [seen]. *)
Definition visit (st : list SearchResult * list string)
  (result : SearchResult) : list SearchResult * list string :=
  let (unique, seen) := st in
  if negb (has seen (key result))
  then (unique ++ [result], key result :: seen)
  else (unique, seen).

Definition rankResults (results : list SearchResult) (query : string)
  : list SearchResult :=
  let sorted := JS.sort compareFn results in
  fst (fold_left visit sorted ([], [])).

(** *** Formatting *)

Definition pushTypeError : string :=
  "TypeError: acc[result.source].push is not a function"%string.

(** One call of the reducer of [groupBySource].  An array, even an empty
    one, and what [Object.prototype] provides are truthy; only the arrays
    have a [push]. *)
Definition group (acc : JS.Obj.t (list SearchResult))
  (result : SearchResult) : Completion (JS.Obj.t (list SearchResult)) :=
  (* [if (!acc[result.source]) acc[result.source] = [];] *)
  let acc :=
    match JS.Obj.get acc (source result) with
    | JS.Obj.Undefined => JS.Obj.set acc (source result) []
    | _ => acc
    end in
  (* [acc[result.source].push(result); return acc;] *)
  match JS.Obj.get acc (source result) with
  | JS.Obj.Own items =>
      Normal (JS.Obj.set acc (source result) (items ++ [result]))
  | _ => Throw pushTypeError
  end.

Definition groupBySource (results : list SearchResult)
  : Completion (JS.Obj.t (list SearchResult)) :=
  fold_left (fun acc result => acc <- acc ;; group acc result)
    results (Normal JS.Obj.empty).

(** A string is truthy unless it is empty. *)
Definition truthy (s : string) : bool :=
  negb (String.eqb s EmptyString).

Definition formatItem (formatted : string) (item : SearchResult) : string :=
  let formatted :=
    (formatted ++ JS.template ["- **"; title item; "**"; JS.LF])%string in
  let formatted :=
    (formatted ++ JS.template ["  "; content item; JS.LF])%string in
  let formatted :=
    (* [if (item.url)]: an absent URL is [undefined], which is falsy *)
    match url item with
    | Some u =>
        if truthy u
        then (formatted ++ JS.template ["  "; u; JS.LF])%string
        else formatted
    | None => formatted
    end in
  (formatted ++ JS.LF)%string.

Definition formatGroup (formatted : string)
  (entry : string * list SearchResult) : string :=
  let (source, items) := entry in
  let formatted :=
    (formatted ++
     JS.template ["**"; source; "** (";
                  JS.toString (List.length items); " results):"; JS.LF])%string in
  fold_left formatItem items formatted.

Definition noResults : string :=
  "No results found across any data sources."%string.

(** [maxResults] is [None] when the argument is omitted. *)
Definition formatResults (results : list SearchResult)
  (maxResults : option Z) : Completion string :=
  let maxResults := match maxResults with Some n => n | None => 10%Z end in
  if Nat.eqb (List.length results) 0 then Normal noResults
  else
    let topResults := JS.slice0 results maxResults in
    sourceGroups <- groupBySource topResults ;;
    let formatted :=
      JS.template ["Found "; JS.toString (List.length results);
                   " results across ";
                   JS.toString (List.length (JS.Obj.keys sourceGroups));
                   " sources:"; JS.LF; JS.LF]%string in
    Normal (fold_left formatGroup (JS.Obj.entries sourceGroups) formatted).

(** *** Searching *)

(** The order in which the pending searches settle is not fixed by
    the program.  A schedule lists, turn by turn, which of the still
    pending searches settles next (counted among the pending ones,
    modulo their number; a schedule that runs out picks the first). *)
Fixpoint removeAt {A : Type} (k : nat) (l : list A) : list A :=
  match l, k with
  | [], _ => []
  | _ :: rest, O => rest
  | x :: rest, S k' => x :: removeAt k' rest
  end.

Fixpoint settleOrder {A : Type} (fuel : nat) (schedule : list nat)
  (pending : list A) : list A :=
  match fuel, pending with
  | S fuel', first :: _ =>
      let k := Nat.modulo (hd O schedule) (List.length pending) in
      nth k pending first
        :: settleOrder fuel' (tl schedule) (removeAt k pending)
  | _, _ => []
  end.

Section Search.
(** [constructor(private dataSources: IDataSource[])] *)
Variable dataSources : list IDataSource.

(** The progress sink is a callback of the caller; [W] is the state it
    writes to.  Here the callback is taken to return and the [search] of
    every backend to be an [async] method, whose failure rejects its
    promise: the run of the program on these inputs.  [Promises.search]
    below has the callbacks that throw and the [search] methods that
    throw in the call itself as well. *)
Variable W : Type.
Variable onProgress : option (SearchProgress.t -> W -> W).

Definition notify (progress : SearchProgress.t) (w : W) : W :=
  match onProgress with
  | Some callback => callback progress w
  | None => w
  end.

Definition relevantSources (query : string)
  : Completion (list IDataSource) :=
  JS.filter (fun ds => isRelevantFor ds query) dataSources.

Definition sourcesToSearch (query : string)
  : Completion (list IDataSource) :=
  relevantSources <- relevantSources query ;;
  Normal (if Nat.ltb 0 (List.length relevantSources)
          then relevantSources else dataSources).

(** The body of the [async (source) => ...] callback up to its
    [await]: it runs while [map] builds the array of promises.  What
    goes to the console is left out. *)
Definition start (w : W) (source : IDataSource) : W :=
  notify {| SearchProgress.source := name source;
            SearchProgress.status := SearchProgress.searching;
            SearchProgress.resultCount := None |} w.

(** The rest of the callback, run when the promise of
    [source.search(query)] is settled. *)
Definition resume (query : string) (source : IDataSource) (w : W)
  : list SearchResult * W :=
  match search source query with
  | Normal results =>
      (results,
       notify {| SearchProgress.source := name source;
                 SearchProgress.status := SearchProgress.completed;
                 SearchProgress.resultCount := Some (List.length results) |} w)
  | Throw _ =>
      ([],
       notify {| SearchProgress.source := name source;
                 SearchProgress.status := SearchProgress.error;
                 SearchProgress.resultCount := None |} w)
  end.

Definition search (query : string) (schedule : list nat) (w : W)
  : Completion (list SearchResult) * W :=
  match sourcesToSearch query with
  | Throw e => (Throw e, w)
  | Normal sourcesToSearch =>
      (* [sourcesToSearch.map(async (source) => ...)] *)
      let w := fold_left start sourcesToSearch w in
      (* the searches settle, each resuming its callback *)
      let w :=
        fold_left (fun w source => snd (resume query source w))
          (settleOrder (List.length sourcesToSearch) schedule sourcesToSearch)
          w in
      (* [Promise.all] keeps the order of the promises *)
      let allResults :=
        map (fun source => fst (resume query source w)) sourcesToSearch in
      let flatResults := List.concat allResults in
      (Normal (rankResults flatResults query), w)
  end.
End Search.

End QueryOrchestrator.

(* ================================================================= *)
(** ** Vocabulary of the properties *)

(** A sink that keeps every event it is handed, in the order of the
    calls, as the sink of [server-two.ts] does with [progressUpdates]. *)
Definition record (progress : SearchProgress.t)
  (log : list SearchProgress.t) : list SearchProgress.t :=
  log ++ [progress].

(** [isRelevantFor(query)] returns [true]. *)
Definition claimsRelevance (query : string) (ds : IDataSource) : bool :=
  match isRelevantFor ds query with
  | Normal b => b
  | Throw _ => false
  end.

(** [isRelevantFor(query)] returns, with whichever answer. *)
Definition answers (query : string) (ds : IDataSource) : Prop :=
  exists b, isRelevantFor ds query = Normal b.

(** [search(query)] is fulfilled. *)
Definition succeeds (query : string) (ds : IDataSource) : bool :=
  isNormal (search ds query).

(** What a backend adds to the pool. *)
Definition contribution (query : string) (ds : IDataSource)
  : list SearchResult :=
  match search ds query with
  | Normal results => results
  | Throw _ => []
  end.

(** The number of events of a given status and source in a log. *)
Definition events (st : SearchProgress.Status) (n : string)
  (log : list SearchProgress.t) : nat :=
  List.length
    (List.filter
       (fun p => SearchProgress.Status_eqb (SearchProgress.status p) st
                 && String.eqb (SearchProgress.source p) n)
       log).

(** The number of backends of a given name and search outcome. *)
Definition backends (ok : bool) (query n : string)
  (l : list IDataSource) : nat :=
  List.length
    (List.filter
       (fun ds => Bool.eqb (succeeds query ds) ok && String.eqb (name ds) n)
       l).

(** The events the callback of [search] hands to the sink for a backend. *)
Definition searchingEvent (ds : IDataSource) : SearchProgress.t :=
  {| SearchProgress.source := name ds;
     SearchProgress.status := SearchProgress.searching;
     SearchProgress.resultCount := None |}.

Definition terminalEvent (query : string) (ds : IDataSource)
  : SearchProgress.t :=
  match search ds query with
  | Normal results =>
      {| SearchProgress.source := name ds;
         SearchProgress.status := SearchProgress.completed;
         SearchProgress.resultCount := Some (List.length results) |}
  | Throw _ =>
      {| SearchProgress.source := name ds;
         SearchProgress.status := SearchProgress.error;
         SearchProgress.resultCount := None |}
  end.

(** Sample backends: a fixed answer to the relevance check and a fixed
    outcome of the search. *)
Definition backend (n : string) (relevant : Completion bool)
  (found : Completion (list SearchResult)) : IDataSource :=
  {| name := n;
     search := fun _ => found;
     isRelevantFor := fun _ => relevant |}.

Definition result (s t : string) (score : Q) : SearchResult :=
  {| source := s; title := t; content := EmptyString; url := None;
     relevanceScore := score; metadata := None |}.

(** The sort step of [rankResults]. *)
Abbreviation rank := (JS.sort QueryOrchestrator.compareFn).

(** Descending order of the scores, and the results of one score. *)
Definition precedes (a b : SearchResult) : Prop :=
  (relevanceScore b <= relevanceScore a)%Q.

Definition scored (s : Q) (r : SearchResult) : bool :=
  Qeq_bool (relevanceScore r) s.

(** The deduplication loop as a recursion on the ranked sequence. *)
Fixpoint keepFirst (seen : list string) (l : list SearchResult)
  : list SearchResult :=
  match l with
  | [] => []
  | r :: rest =>
      if QueryOrchestrator.has seen (QueryOrchestrator.key r)
      then keepFirst seen rest
      else r :: keepFirst (QueryOrchestrator.key r :: seen) rest
  end.

(** No hyphen occurs in a string. *)
Fixpoint hyphenFree (s : string) : bool :=
  match s with
  | EmptyString => true
  | String c rest => negb (Ascii.eqb c "-") && hyphenFree rest
  end.

(** *** The summary, following the words of the specification *)

(** The distinct strings of a list, each at its first appearance. *)
Fixpoint firstAppearance (l : list string) : list string :=
  match l with
  | [] => []
  | s :: rest =>
      s :: List.filter (fun s' => negb (String.eqb s' s)) (firstAppearance rest)
  end.

Definition from (s : string) (r : SearchResult) : bool :=
  String.eqb (source r) s.

(** One group per source, in the order of first appearance, each holding
    the results of its source in the order of the list. *)
Definition groupsOf (l : list SearchResult)
  : list (string * list SearchResult) :=
  map (fun s => (s, List.filter (from s) l)) (firstAppearance (map source l)).

Definition renderItem (item : SearchResult) : string :=
  JS.template
    [ "- **"; title item; "**"; JS.LF;
      "  "; content item; JS.LF;
      match url item with
      | Some (String c u) => JS.template ["  "; String c u; JS.LF]
      | _ => EmptyString
      end;
      JS.LF ]%string.

Definition renderGroup (g : string * list SearchResult) : string :=
  JS.template
    [ "**"; fst g; "** ("; JS.toString (List.length (snd g)); " results):";
      JS.LF; JS.template (map renderItem (snd g)) ]%string.

Definition header (total sources : nat) : string :=
  JS.template
    [ "Found "; JS.toString total; " results across "; JS.toString sources;
      " sources:"; JS.LF; JS.LF ]%string.

Definition render (total : nat) (groups : list (string * list SearchResult))
  : string :=
  (header total (List.length groups)
   ++ JS.template (map renderGroup groups))%string.

(** The object whose keys are [keys], in that order, each with the value
    [g] gives it. *)
Definition table {V : Type} (g : string -> V) (keys : list string)
  : JS.Obj.t V :=
  map (fun s => (s, g s)) keys.

(* ================================================================= *)
(** ** The backends of the repository ([datasources/*.ts]) *)

Module Backends.

(** [String.prototype.includes(kw)] *)
Fixpoint includes (s kw : string) : bool :=
  String.prefix kw s
  || match s with
     | EmptyString => false
     | String _ rest => includes rest kw
     end.

(** [String.prototype.indexOf(needle)], with [None] for [-1] *)
Fixpoint indexOf (s needle : string) : option nat :=
  if String.prefix needle s then Some 0
  else match s with
       | EmptyString => None
       | String _ rest => option_map S (indexOf rest needle)
       end.

(** [ToIntegerOrInfinity] of a number: the fraction is cut off. *)
Definition truncate (q : Q) : Z :=
  if Qle_bool 0 q then Qfloor q else Qceiling q.

(** [String.prototype.substring(start, end)]: both positions are
    truncated and brought into the string, and swapped when the first
    lies behind the second. *)
Definition position (q : Q) (len : nat) : nat :=
  Z.to_nat (Z.min (Z.max (truncate q) 0) (Z.of_nat len)).

Definition substring (s : string) (start end_ : Q) : string :=
  let len := String.length s in
  let from := Nat.min (position start len) (position end_ len) in
  let to := Nat.max (position start len) (position end_ len) in
  String.substring from (to - from) s.

(** [Math.max] and [Math.min] of two numbers *)
Definition max (a b : Q) : Q := if Qle_bool a b then b else a.
Definition min (a b : Q) : Q := if Qle_bool a b then a else b.

(** The shape of the four [search] methods but that of Google Docs:
    [try { ... return results; } catch (error) { ...; return []; }].  The
    body of the [try], which talks to the service of the backend, is
    taken as it comes. *)
Definition guarded (body : string -> Completion (list SearchResult))
  (query : string) : Completion (list SearchResult) :=
  match body query with
  | Normal results => Normal results
  | Throw _ => Normal []
  end.

Section Library.
(** [String.prototype.toLowerCase]: the case mapping of the engine, not
    reproduced here. *)
Variable toLowerCase : string -> string.

(** [keywords.some(kw => query.toLowerCase().includes(kw))] *)
Definition mentions (keywords : list string) (query : string) : bool :=
  existsb (fun kw => includes (toLowerCase query) kw) keywords.

Definition SlackDataSource
  (body : string -> Completion (list SearchResult)) : IDataSource :=
  {| name := "Slack";
     search := guarded body;
     isRelevantFor := fun query =>
       Normal (mentions
                 [ "said"; "mentioned"; "discussion"; "conversation";
                   "message"; "chat"; "slack" ]%string
                 query) |}.

(** The [search] of Google Docs returns the promise of [Promise.all]
    from inside its [try] without awaiting it, so that a rejection of
    that promise is not caught: the whole method is taken as it comes. *)
Definition GoogleDocsDataSource
  (found : string -> Completion (list SearchResult)) : IDataSource :=
  {| name := "Google Docs";
     search := found;
     isRelevantFor := fun query =>
       Normal (mentions
                 [ "document"; "doc"; "documentation"; "guide"; "spec";
                   "design"; "google" ]%string
                 query) |}.

Definition DatabaseDataSource
  (body : string -> Completion (list SearchResult)) : IDataSource :=
  {| name := "Database";
     search := guarded body;
     isRelevantFor := fun query =>
       Normal (mentions
                 [ "users"; "data"; "count"; "how many"; "metrics";
                   "analytics"; "datadog"; "database" ]%string
                 query) |}.

Definition WebSearchDataSource
  (body : string -> Completion (list SearchResult)) : IDataSource :=
  {| name := "Web";
     search := guarded body;
     isRelevantFor := fun _ => Normal true |}.

(** [GoogleDocsDataSource.getSnippet]; [contextLength] is [None] when the
    argument is omitted. *)
Definition getSnippet (text query : string) (contextLength : option Z)
  : string :=
  let contextLength :=
    match contextLength with Some n => n | None => 100%Z end in
  let lowerText := toLowerCase text in
  let lowerQuery := toLowerCase query in
  match indexOf lowerText lowerQuery with
  | None =>
      (substring text 0 (inject_Z contextLength) ++ "...")%string
  | Some index =>
      let start :=
        max 0 (inject_Z (Z.of_nat index) - inject_Z contextLength / 2)%Q in
      let end_ :=
        min (inject_Z (Z.of_nat (String.length text)))
          (inject_Z (Z.of_nat index)
           + inject_Z (Z.of_nat (String.length query))
           + inject_Z contextLength / 2)%Q in
      ("..." ++ substring text start end_ ++ "...")%string
  end.
End Library.

End Backends.

(** The backends of the repository, whatever their services answer. *)
Inductive ofRepository (toLowerCase : string -> string)
  : IDataSource -> Prop :=
| repositorySlack body :
    ofRepository toLowerCase (Backends.SlackDataSource toLowerCase body)
| repositoryGoogleDocs found :
    ofRepository toLowerCase (Backends.GoogleDocsDataSource toLowerCase found)
| repositoryDatabase body :
    ofRepository toLowerCase (Backends.DatabaseDataSource toLowerCase body)
| repositoryWeb body :
    ofRepository toLowerCase (Backends.WebSearchDataSource body).


(** Lower case for the letters A to Z alone, to run the examples with. *)
Definition lowerAscii (c : ascii) : ascii :=
  let n := nat_of_ascii c in
  if (65 <=? n) && (n <=? 90) then ascii_of_nat (n + 32) else c.

Fixpoint lowerLatin (s : string) : string :=
  match s with
  | EmptyString => EmptyString
  | String c rest => String (lowerAscii c) (lowerLatin rest)
  end.

(* ================================================================= *)
(** ** [QueryOrchestrator.search], with callbacks and calls that may throw *)

(** [QueryOrchestrator.search] above runs the method with a progress
    callback that returns and with backends whose [search] is an [async]
    method.  Here the callback may throw, and the [search] of a backend
    may be an ordinary method whose failure is thrown by the call itself.
    Each [async (source) => ...] callback has its promise; [Promise.all]
    rejects with the first rejection it is told of, and the other
    callbacks run on. *)
Module Promises.

(** A progress callback: it may change the state of the caller, and it
    returns or throws. *)
Definition Sink (W : Type) : Type :=
  SearchProgress.t -> W -> Completion unit * W.

(** The promise of one [async (source) => ...] callback. *)
Inductive Promise : Type :=
| Pending
| Settled (c : Completion (list SearchResult)).

Definition isPending (slot : IDataSource * Promise) : bool :=
  match snd slot with Pending => true | Settled _ => false end.

(** What [Promise.all] has of a promise that is fulfilled. *)
Definition fulfilment (slot : IDataSource * Promise) : list SearchResult :=
  match snd slot with
  | Settled (Normal results) => results
  | _ => []
  end.

(** The first rejection [Promise.all] is told of. *)
Definition firstRejection (seen : option string)
  (c : Completion (list SearchResult)) : option string :=
  match seen, c with
  | Some e, _ => Some e
  | None, Throw e => Some e
  | None, Normal _ => None
  end.

(** A call of [search]: what its promise is settled with, the state of
    the caller once every callback has run to its end, and the backends
    whose [search] was called, in the order of the calls. *)
Record Run (W : Type) : Type := {
  outcome : Completion (list SearchResult);
  world : W;
  searched : list IDataSource
}.

Section Search.
(** [constructor(private dataSources: IDataSource[])] *)
Variable dataSources : list IDataSource.
Variable W : Type.
Variable onProgress : option (Sink W).

(** Whether the [search] of a backend is an ordinary method, whose failure
    is thrown by the call itself, and not an [async] one, whose failure
    rejects the promise the call returns. *)
Variable direct : IDataSource -> bool.
Variable query : string.

(** [if (onProgress) { onProgress(progress); }] *)
Definition notify (progress : SearchProgress.t) (w : W)
  : Completion unit * W :=
  match onProgress with
  | Some callback => callback progress w
  | None => (Normal tt, w)
  end.

(** The [catch] block; what the callback throws there is not caught. *)
Definition caught (source : IDataSource) (w : W)
  : Completion (list SearchResult) * W :=
  let (told, w) :=
    notify {| SearchProgress.source := name source;
              SearchProgress.status := SearchProgress.error;
              SearchProgress.resultCount := None |} w in
  (match told with Normal _ => Normal [] | Throw e => Throw e end, w).

(** The [async (source) => ...] callback up to its [await], run while
    [map] builds the array of promises: the promise of the callback,
    whether [source.search] was called, and the state of the caller. *)
Definition start (source : IDataSource) (w : W) : Promise * bool * W :=
  let (told, w) :=
    notify {| SearchProgress.source := name source;
              SearchProgress.status := SearchProgress.searching;
              SearchProgress.resultCount := None |} w in
  match told with
  | Throw e => (Settled (Throw e), false, w)
  | Normal _ =>
      match search source query with
      | Throw _ =>
          if direct source
          then let (c, w) := caught source w in (Settled c, true, w)
          else (Pending, true, w)
      | Normal _ => (Pending, true, w)
      end
  end.

(** The callback from its [await] on, run when the promise of
    [source.search(query)] is settled. *)
Definition resume (source : IDataSource) (w : W)
  : Completion (list SearchResult) * W :=
  match search source query with
  | Normal results =>
      let (told, w) :=
        notify {| SearchProgress.source := name source;
                  SearchProgress.status := SearchProgress.completed;
                  SearchProgress.resultCount := Some (List.length results) |}
          w in
      match told with
      | Normal _ => (Normal results, w)
      | Throw _ => caught source w
      end
  | Throw _ => caught source w
  end.

(** One step of [sourcesToSearch.map(async (source) => ...)], on the
    promises made so far, the first rejection among them, the state of
    the caller and the backends searched. *)
Definition launch
  (st : list (IDataSource * Promise) * option string * W * list IDataSource)
  (source : IDataSource)
  : list (IDataSource * Promise) * option string * W * list IDataSource :=
  let '(slots, rejected, w, called) := st in
  let '(promise, wasCalled, w) := start source w in
  (slots ++ [(source, promise)],
   match promise with
   | Settled c => firstRejection rejected c
   | Pending => rejected
   end,
   w,
   if wasCalled then called ++ [source] else called).

(** The search of the [k]-th of the pending callbacks settles and the
    callback runs to its end. *)
Fixpoint settle (k : nat) (slots : list (IDataSource * Promise)) (w : W)
  : list (IDataSource * Promise)
    * option (Completion (list SearchResult)) * W :=
  match slots with
  | [] => ([], None, w)
  | (source, Pending) :: rest =>
      match k with
      | O =>
          let (c, w) := resume source w in
          ((source, Settled c) :: rest, Some c, w)
      | S k' =>
          let '(rest, c, w) := settle k' rest w in
          ((source, Pending) :: rest, c, w)
      end
  | (source, Settled c0) :: rest =>
      let '(rest, c, w) := settle k rest w in
      ((source, Settled c0) :: rest, c, w)
  end.

(** The pending searches settle in the order the schedule gives, as in
    [QueryOrchestrator.settleOrder]. *)
Fixpoint settleAll (fuel : nat) (schedule : list nat)
  (slots : list (IDataSource * Promise)) (rejected : option string) (w : W)
  : list (IDataSource * Promise) * option string * W :=
  match fuel with
  | O => (slots, rejected, w)
  | S fuel' =>
      match List.length (List.filter isPending slots) with
      | O => (slots, rejected, w)
      | S n =>
          let k := Nat.modulo (hd O schedule) (S n) in
          let '(slots, c, w) := settle k slots w in
          settleAll fuel' (tl schedule) slots
            (match c with
             | Some c => firstRejection rejected c
             | None => rejected
             end)
            w
      end
  end.

Definition search (schedule : list nat) (w : W) : Run W :=
  match QueryOrchestrator.sourcesToSearch dataSources query with
  | Throw e => {| outcome := Throw e; world := w; searched := [] |}
  | Normal sourcesToSearch =>
      let '(slots, rejected, w, called) :=
        fold_left launch sourcesToSearch ([], None, w, []) in
      let '(slots, rejected, w) :=
        settleAll (List.length slots) schedule slots rejected w in
      {| outcome :=
           match rejected with
           | Some e => Throw e
           | None =>
               (* [await Promise.all(searchPromises)], [flat], [rankResults] *)
               Normal (QueryOrchestrator.rankResults
                         (List.concat (map fulfilment slots)) query)
           end;
         world := w;
         searched := called |}
  end.
End Search.

End Promises.

(** A callback that returns whatever it is handed; no callback returns
    too. *)
Definition returns {W : Type} (onProgress : option (Promises.Sink W))
  : Prop :=
  forall callback, onProgress = Some callback ->
    forall p w, fst (callback p w) = Normal tt.

(** The recording sink as a callback. *)
Definition recording : Promises.Sink (list SearchProgress.t) :=
  fun progress log => (Normal tt, record progress log).

(** The search of the backend fails in the call itself. *)
Definition failsInCall (direct : IDataSource -> bool) (query : string)
  (ds : IDataSource) : bool :=
  direct ds && negb (succeeds query ds).

(** The events of a backend while [map] runs. *)
Definition startEvents (direct : IDataSource -> bool) (query : string)
  (ds : IDataSource) : list SearchProgress.t :=
  searchingEvent ds
  :: (if failsInCall direct query ds then [terminalEvent query ds] else []).

(** The state of the caller after a callback that returns was handed
    the events of a list. *)
Definition told {W : Type} (onProgress : option (Promises.Sink W))
  (l : list SearchProgress.t) (w : W) : W :=
  fold_left (fun w p => snd (Promises.notify onProgress p w)) l w.

(** The promise of the callback of a backend when [map] has run, with a
    progress callback that returns. *)
Definition promiseAfterStart (direct : IDataSource -> bool) (query : string)
  (ds : IDataSource) : Promises.Promise :=
  if failsInCall direct query ds
  then Promises.Settled (Normal [])
  else Promises.Pending.

(** A promise that is pending, or fulfilled with what its backend adds to
    the pool. *)
Definition good (query : string) (slot : IDataSource * Promises.Promise)
  : Prop :=
  snd slot = Promises.Pending
  \/ snd slot = Promises.Settled (Normal (contribution query (fst slot))).

(** The results of the backends of a search set whose search succeeded,
    in the order of the search set. *)
Definition succeededPool (query : string) (selected : list IDataSource)
  : list SearchResult :=
  List.concat
    (map (contribution query) (List.filter (succeeds query) selected)).

(** [l1] is [l2] with some of its elements left out. *)
Inductive subsequence {A : Type} : list A -> list A -> Prop :=
| subsequence_nil : subsequence [] []
| subsequence_keep x l1 l2 :
    subsequence l1 l2 -> subsequence (x :: l1) (x :: l2)
| subsequence_drop x l1 l2 :
    subsequence l1 l2 -> subsequence l1 (x :: l2).

(** A callback that throws at the events of one status. *)
Definition throwingAt (st : SearchProgress.Status)
  : Promises.Sink (list SearchProgress.t) :=
  fun progress log =>
    (if SearchProgress.Status_eqb (SearchProgress.status progress) st
     then Throw "sink"%string else Normal tt,
     record progress log).

(* ================================================================= *)
(** ** Routing *)

Section Routing.
Variable query : string.

Lemma filter_answers (l : list IDataSource) :
  Forall (answers query) l ->
  JS.filter (fun ds => isRelevantFor ds query) l
  = Normal (List.filter (claimsRelevance query) l).
Proof.
  induction 1 as [| ds rest [b Hb] _ IH]; simpl.
  - reflexivity.
  - unfold claimsRelevance at 1. rewrite Hb, IH. simpl.
    reflexivity.
Qed.

Lemma filter_throws (before after : list IDataSource) (ds : IDataSource)
  (e : string) :
  Forall (answers query) before ->
  isRelevantFor ds query = Throw e ->
  JS.filter (fun ds => isRelevantFor ds query) (before ++ ds :: after)
  = Throw e.
Proof.
  intros Hbefore Hds.
  induction Hbefore as [| d rest [b Hb] _ IH]; simpl.
  - rewrite Hds. reflexivity.
  - rewrite Hb, IH. reflexivity.
Qed.

Lemma filter_throws_In (l : list IDataSource) (ds : IDataSource)
  (e : string) :
  In ds l ->
  isRelevantFor ds query = Throw e ->
  exists e', JS.filter (fun ds => isRelevantFor ds query) l = Throw e'.
Proof.
  intros Hin Hds. induction l as [| d rest IH]; [contradiction |].
  simpl. destruct (isRelevantFor d query) as [b | e0] eqn:Hd; simpl.
  - destruct Hin as [-> | Hin]; [congruence |].
    destruct (IH Hin) as [e' He']. rewrite He'. exists e'. reflexivity.
  - exists e0. reflexivity.
Qed.


(** C1. When every relevance check answers, the search set is the
    sub-list of the registered backends whose check answers [true], in
    registration order; when that sub-list is empty it is the whole
    registration list. *)
Theorem routing_selects_relevant_or_all (dataSources : list IDataSource) :
  Forall (answers query) dataSources ->
  QueryOrchestrator.sourcesToSearch dataSources query
  = Normal (match List.filter (claimsRelevance query) dataSources with
            | [] => dataSources
            | subset => subset
            end).
Proof.
  intros Hanswers.
  unfold QueryOrchestrator.sourcesToSearch, QueryOrchestrator.relevantSources.
  rewrite (filter_answers Hanswers). simpl.
  destruct (List.filter (claimsRelevance query) dataSources); reflexivity.
Qed.

End Routing.

(** A registration of two backends of which the first is not relevant. *)
Lemma routing_selects_relevant_or_all_witness :
  QueryOrchestrator.sourcesToSearch
    [backend "Docs" (Normal false) (Normal []);
     backend "Slack" (Normal true) (Normal [])] "who said it"
  = Normal [backend "Slack" (Normal true) (Normal [])].
Proof.
  apply (@routing_selects_relevant_or_all "who said it"
           [backend "Docs" (Normal false) (Normal []);
            backend "Slack" (Normal true) (Normal [])]).
  repeat constructor; eexists; reflexivity.
Defined.

(** The search set exists whenever every relevance check answers. *)
Lemma routing_selection_total (query : string)
  (dataSources : list IDataSource) :
  Forall (answers query) dataSources ->
  QueryOrchestrator.sourcesToSearch dataSources query
  = Normal (if Nat.ltb 0 (List.length
                            (List.filter (claimsRelevance query) dataSources))
            then List.filter (claimsRelevance query) dataSources
            else dataSources).
Proof.
  intros Hanswers.
  unfold QueryOrchestrator.sourcesToSearch, QueryOrchestrator.relevantSources.
  rewrite (filter_answers Hanswers). reflexivity.
Qed.

(* ================================================================= *)
(** ** Ranking *)

Section Ranking.

Lemma negative_compareFn (x y : SearchResult) :
  JS.negative (QueryOrchestrator.compareFn y x) = true
  <-> (relevanceScore x < relevanceScore y)%Q.
Proof.
  unfold JS.negative, QueryOrchestrator.compareFn.
  rewrite negb_true_iff, <- not_true_iff_false, Qle_bool_iff.
  split; intros H; lra.
Qed.

Lemma not_negative_compareFn (x y : SearchResult) :
  JS.negative (QueryOrchestrator.compareFn y x) = false
  <-> (relevanceScore y <= relevanceScore x)%Q.
Proof.
  rewrite <- not_true_iff_false, negative_compareFn.
  split; intros H; lra.
Qed.

Lemma insert_perm (x : SearchResult) (l : list SearchResult) :
  Permutation (x :: l) (JS.insert QueryOrchestrator.compareFn x l).
Proof.
  induction l as [| y rest IH]; simpl.
  - reflexivity.
  - destruct (JS.negative (QueryOrchestrator.compareFn y x)).
    + rewrite perm_swap. apply perm_skip. exact IH.
    + reflexivity.
Qed.

Lemma rank_perm (pool : list SearchResult) : Permutation pool (rank pool).
Proof.
  induction pool as [| x rest IH]; simpl.
  - constructor.
  - rewrite <- insert_perm. apply perm_skip. exact IH.
Qed.

Lemma insert_sorted (x : SearchResult) (l : list SearchResult) :
  StronglySorted precedes l ->
  StronglySorted precedes (JS.insert QueryOrchestrator.compareFn x l).
Proof.
  induction 1 as [| y rest Hrest IH Hy]; simpl.
  - repeat constructor.
  - destruct (JS.negative (QueryOrchestrator.compareFn y x)) eqn:Hcmp.
    + apply negative_compareFn in Hcmp.
      constructor; [exact IH |].
      apply (Permutation_Forall (insert_perm x rest)).
      constructor; [unfold precedes; lra | exact Hy].
    + apply not_negative_compareFn in Hcmp.
      constructor; [constructor; assumption |].
      constructor; [exact Hcmp |].
      eapply Forall_impl; [| exact Hy].
      unfold precedes. intros z Hz. lra.
Qed.

Lemma rank_sorted (pool : list SearchResult) :
  StronglySorted precedes (rank pool).
Proof.
  induction pool as [| x rest IH]; simpl.
  - constructor.
  - apply insert_sorted. exact IH.
Qed.

Lemma insert_stable (s : Q) (x : SearchResult) (l : list SearchResult) :
  List.filter (scored s) (JS.insert QueryOrchestrator.compareFn x l)
  = List.filter (scored s) (x :: l).
Proof.
  induction l as [| y rest IH]; [reflexivity |].
  cbn [JS.insert].
  destruct (JS.negative (QueryOrchestrator.compareFn y x)) eqn:Hcmp;
    [| reflexivity].
  apply negative_compareFn in Hcmp.
  cbn [List.filter] in *. rewrite IH.
  destruct (scored s y) eqn:Hy; [| reflexivity].
  destruct (scored s x) eqn:Hx; [| reflexivity].
  unfold scored in Hx, Hy. apply Qeq_bool_iff in Hx, Hy. lra.
Qed.

Lemma rank_stable (s : Q) (pool : list SearchResult) :
  List.filter (scored s) (rank pool) = List.filter (scored s) pool.
Proof.
  induction pool as [| x rest IH]; [reflexivity |].
  cbn [JS.sort]. rewrite insert_stable. cbn [List.filter].
  rewrite IH. reflexivity.
Qed.

(** The ranking example of the specification. *)
Example ranking_example :
  rank [result "S" "r1" 0.9; result "S" "r2" 0.5;
        result "S" "r3" 0.9; result "S" "r4" 0.2]
  = [result "S" "r1" 0.9; result "S" "r3" 0.9;
     result "S" "r2" 0.5; result "S" "r4" 0.2].
Proof. reflexivity. Qed.

(** The three properties of C3 leave no choice: whichever stable sorting
    algorithm the engine runs, its output on a pool is [rank pool]. *)
Lemma scored_self (r : SearchResult) : scored (relevanceScore r) r = true.
Proof. unfold scored. apply Qeq_bool_iff. reflexivity. Qed.

Lemma scored_head_in (x : SearchResult) (l l' : list SearchResult) :
  List.filter (scored (relevanceScore x)) (x :: l)
  = List.filter (scored (relevanceScore x)) l' ->
  In x l'.
Proof.
  cbn [List.filter]. rewrite scored_self. intros Heq.
  assert (Hin : In x (List.filter (scored (relevanceScore x)) l'))
    by (rewrite <- Heq; left; reflexivity).
  apply List.filter_In in Hin. tauto.
Qed.

Lemma sorted_stable_unique (l1 l2 : list SearchResult) :
  StronglySorted precedes l1 ->
  StronglySorted precedes l2 ->
  (forall s, List.filter (scored s) l1 = List.filter (scored s) l2) ->
  l1 = l2.
Proof.
  intros Hsorted1. revert l2.
  induction Hsorted1 as [| a l1 Hl1 IH Ha]; intros l2 Hsorted2 Hsame.
  - destruct l2 as [| b l2]; [reflexivity |].
    specialize (Hsame (relevanceScore b)). symmetry in Hsame.
    apply scored_head_in in Hsame. contradiction.
  - destruct Hsorted2 as [| b l2 Hl2 Hb].
    + specialize (Hsame (relevanceScore a)).
      apply scored_head_in in Hsame. contradiction.
    + assert (Hscore : (relevanceScore a == relevanceScore b)%Q).
      { pose proof (@scored_head_in _ _ _ (Hsame (relevanceScore a))) as Hina.
        pose proof (@scored_head_in _ _ _ (eq_sym (Hsame (relevanceScore b))))
          as Hinb.
        assert (Hab : precedes b a).
        { destruct Hina as [<- | Hina]; [unfold precedes; lra |].
          rewrite Forall_forall in Hb. exact (Hb _ Hina). }
        assert (Hba : precedes a b).
        { destruct Hinb as [<- | Hinb]; [unfold precedes; lra |].
          rewrite Forall_forall in Ha. exact (Ha _ Hinb). }
        unfold precedes in *. lra. }
      assert (Hhead : a = b).
      { specialize (Hsame (relevanceScore a)). cbn [List.filter] in Hsame.
        rewrite scored_self in Hsame.
        assert (Hb' : scored (relevanceScore a) b = true).
        { unfold scored. apply Qeq_bool_iff. symmetry. exact Hscore. }
        rewrite Hb' in Hsame. congruence. }
      subst b. f_equal. apply IH; [exact Hl2 |].
      intros s. specialize (Hsame s). cbn [List.filter] in Hsame.
      destruct (scored s a); congruence.
Qed.

Lemma stable_sort_is_rank (pool sorted : list SearchResult) :
  StronglySorted precedes sorted ->
  (forall s, List.filter (scored s) sorted = List.filter (scored s) pool) ->
  sorted = rank pool.
Proof.
  intros Hsorted Hstable.
  apply sorted_stable_unique; [exact Hsorted | apply rank_sorted |].
  intros s. rewrite rank_stable. apply Hstable.
Qed.

End Ranking.

(* ================================================================= *)
(** ** Deduplication *)

Section Deduplication.

Lemma fold_visit (l unique : list SearchResult) (seen : list string) :
  fst (fold_left QueryOrchestrator.visit l (unique, seen))
  = unique ++ keepFirst seen l.
Proof.
  revert unique seen. induction l as [| r rest IH]; intros unique seen.
  - simpl. rewrite app_nil_r. reflexivity.
  - cbn [fold_left keepFirst]. unfold QueryOrchestrator.visit at 2.
    destruct (QueryOrchestrator.has seen (QueryOrchestrator.key r)); simpl.
    + apply IH.
    + rewrite IH, <- app_assoc. reflexivity.
Qed.

Lemma rankResults_keepFirst (pool : list SearchResult) (query : string) :
  QueryOrchestrator.rankResults pool query = keepFirst [] (rank pool).
Proof.
  unfold QueryOrchestrator.rankResults. apply fold_visit.
Qed.

Lemma has_In (seen : list string) (k : string) :
  QueryOrchestrator.has seen k = true <-> In k seen.
Proof.
  unfold QueryOrchestrator.has. rewrite existsb_exists. split.
  - intros [k' [Hin Heq]]. apply String.eqb_eq in Heq. subst. exact Hin.
  - intros Hin. exists k. split; [exact Hin | apply String.eqb_refl].
Qed.

Lemma keepFirst_In (seen : list string) (l : list SearchResult)
  (r : SearchResult) :
  In r (keepFirst seen l) ->
  In r l /\ ~ In (QueryOrchestrator.key r) seen.
Proof.
  revert seen. induction l as [| x rest IH]; intros seen; simpl.
  - contradiction.
  - destruct (QueryOrchestrator.has seen (QueryOrchestrator.key x)) eqn:Hseen.
    + intros Hin. destruct (IH _ Hin). tauto.
    + intros [<- | Hin].
      * split; [left; reflexivity |].
        rewrite <- has_In, Hseen. discriminate.
      * destruct (IH _ Hin) as [Hrest Hnotin]. split; [right; exact Hrest |].
        intros H. apply Hnotin. right. exact H.
Qed.

Lemma keepFirst_NoDup (seen : list string) (l : list SearchResult) :
  NoDup (map QueryOrchestrator.key (keepFirst seen l)).
Proof.
  revert seen. induction l as [| x rest IH]; intros seen; simpl.
  - constructor.
  - destruct (QueryOrchestrator.has seen (QueryOrchestrator.key x)).
    + apply IH.
    + simpl. constructor; [| apply IH].
      rewrite in_map_iff. intros [r [Hkey Hin]].
      apply keepFirst_In in Hin. destruct Hin as [_ Hnotin].
      apply Hnotin. left. symmetry. exact Hkey.
Qed.

Lemma keepFirst_sorted (seen : list string) (l : list SearchResult) :
  StronglySorted precedes l -> StronglySorted precedes (keepFirst seen l).
Proof.
  intros Hsorted. revert seen.
  induction Hsorted as [| x rest Hrest IH Hx]; intros seen; simpl.
  - constructor.
  - destruct (QueryOrchestrator.has seen (QueryOrchestrator.key x)).
    + apply IH.
    + constructor; [apply IH |].
      rewrite Forall_forall in *. intros r Hin.
      apply Hx. apply keepFirst_In in Hin. tauto.
Qed.

(** Of the results of one key the first of the ranked sequence survives,
    and no result of that key is scored higher. *)
Lemma keepFirst_best (seen : list string) (l : list SearchResult)
  (r : SearchResult) :
  StronglySorted precedes l ->
  In r l ->
  ~ In (QueryOrchestrator.key r) seen ->
  exists best,
    In best (keepFirst seen l)
    /\ QueryOrchestrator.key best = QueryOrchestrator.key r
    /\ precedes best r.
Proof.
  intros Hsorted. revert seen.
  induction Hsorted as [| x rest Hrest IH Hx]; intros seen Hin Hnotseen.
  - contradiction.
  - simpl.
    destruct (String.eqb (QueryOrchestrator.key x) (QueryOrchestrator.key r))
      eqn:Hkey.
    + apply String.eqb_eq in Hkey.
      assert (Hseen : QueryOrchestrator.has seen (QueryOrchestrator.key x)
                      = false).
      { apply not_true_iff_false. rewrite has_In, Hkey. exact Hnotseen. }
      rewrite Hseen. exists x. split; [left; reflexivity |].
      split; [exact Hkey |].
      destruct Hin as [<- | Hin]; [unfold precedes; lra |].
      rewrite Forall_forall in Hx. apply Hx, Hin.
    + apply String.eqb_neq in Hkey.
      destruct Hin as [<- | Hin]; [congruence |].
      destruct (QueryOrchestrator.has seen (QueryOrchestrator.key x)).
      * apply IH; assumption.
      * destruct (IH (QueryOrchestrator.key x :: seen) Hin)
          as [best [Hbest Hrest']].
        { intros [H | H]; [congruence | contradiction]. }
        exists best. split; [right; exact Hbest | exact Hrest'].
Qed.

(** The part of C2 that holds: the output has one result per key, every
    key of the pool has its result in the output, and that result is
    scored at least as high as every pool result of the key. *)
Lemma rankResults_one_per_key (pool : list SearchResult) (query : string) :
  NoDup (map QueryOrchestrator.key (QueryOrchestrator.rankResults pool query)).
Proof.
  rewrite rankResults_keepFirst. apply keepFirst_NoDup.
Qed.

Lemma rankResults_keeps_best (pool : list SearchResult) (query : string)
  (r : SearchResult) :
  In r pool ->
  exists best,
    In best (QueryOrchestrator.rankResults pool query)
    /\ QueryOrchestrator.key best = QueryOrchestrator.key r
    /\ (relevanceScore r <= relevanceScore best)%Q.
Proof.
  intros Hin. rewrite rankResults_keepFirst.
  apply keepFirst_best.
  - apply (rank_sorted pool).
  - apply (Permutation_in _ (rank_perm pool)). exact Hin.
  - intros [].
Qed.

Lemma rankResults_from_pool (pool : list SearchResult) (query : string)
  (r : SearchResult) :
  In r (QueryOrchestrator.rankResults pool query) -> In r pool.
Proof.
  rewrite rankResults_keepFirst. intros Hin.
  apply keepFirst_In in Hin. destruct Hin as [Hin _].
  apply (Permutation_in _ (Permutation_sym (rank_perm pool))). exact Hin.
Qed.

Lemma rankResults_sorted (pool : list SearchResult) (query : string) :
  StronglySorted precedes (QueryOrchestrator.rankResults pool query).
Proof.
  rewrite rankResults_keepFirst. apply keepFirst_sorted, rank_sorted.
Qed.

(** The key joins title and source with a hyphen.  Where the sources hold
    no hyphen, as the names of the backends of this repository, the key
    stands for the pair. *)
Lemma append_empty (s : string) : (s ++ "")%string = s.
Proof. induction s as [| c rest IH]; simpl; congruence. Qed.

Lemma key_joined (r : SearchResult) :
  QueryOrchestrator.key r = (title r ++ String "-" (source r))%string.
Proof.
  unfold QueryOrchestrator.key, JS.template. simpl.
  rewrite append_empty. reflexivity.
Qed.

Lemma hyphen_inside (t s : string) :
  hyphenFree (t ++ String "-" s) = false.
Proof.
  induction t as [| c rest IH]; simpl.
  - reflexivity.
  - rewrite IH. apply andb_false_r.
Qed.

Lemma joined_injective (t1 t2 s1 s2 : string) :
  hyphenFree s1 = true ->
  hyphenFree s2 = true ->
  (t1 ++ String "-" s1)%string = (t2 ++ String "-" s2)%string ->
  t1 = t2 /\ s1 = s2.
Proof.
  intros Hs1 Hs2. revert t2.
  induction t1 as [| c t1 IH]; intros [| c' t2] Heq; simpl in Heq.
  - split; congruence.
  - exfalso. injection Heq as _ Heq.
    rewrite Heq, hyphen_inside in Hs1. discriminate.
  - exfalso. injection Heq as _ Heq.
    rewrite <- Heq, hyphen_inside in Hs2. discriminate.
  - injection Heq as -> Heq. destruct (IH _ Heq). split; congruence.
Qed.

Lemma key_injective (a b : SearchResult) :
  hyphenFree (source a) = true ->
  hyphenFree (source b) = true ->
  QueryOrchestrator.key a = QueryOrchestrator.key b ->
  title a = title b /\ source a = source b.
Proof.
  rewrite !key_joined. apply joined_injective.
Qed.

(** The deduplication example of the specification. *)
Example deduplication_example :
  QueryOrchestrator.rankResults
    [result "Docs" "Guide" 0.8; result "Docs" "Guide" 0.95] "guide"
  = [result "Docs" "Guide" 0.95].
Proof. reflexivity. Qed.

(** C2 fails on this pool.  The two results differ in title and in
    source, yet their keys are the same string, and the lower-scored one
    is dropped as a duplicate of the other. *)
Theorem deduplication_confuses_pairs :
  (title (result "Docs" "Guide-Google" 0.9),
   source (result "Docs" "Guide-Google" 0.9))
  <> (title (result "Google-Docs" "Guide" 0.8),
      source (result "Google-Docs" "Guide" 0.8))
  /\ QueryOrchestrator.key (result "Docs" "Guide-Google" 0.9)
     = QueryOrchestrator.key (result "Google-Docs" "Guide" 0.8)
  /\ QueryOrchestrator.rankResults
       [result "Docs" "Guide-Google" 0.9; result "Google-Docs" "Guide" 0.8]
       "guide"
     = [result "Docs" "Guide-Google" 0.9]
  /\ fst (QueryOrchestrator.search
            [backend "Docs" (Normal true)
               (Normal [result "Docs" "Guide-Google" 0.9]);
             backend "Google-Docs" (Normal true)
               (Normal [result "Google-Docs" "Guide" 0.8])]
            (Some record) "guide" [] [])
     = Normal [result "Docs" "Guide-Google" 0.9].
Proof.
  split; [discriminate | repeat split].
Qed.

End Deduplication.

(* ================================================================= *)
(** ** The executor *)

Section Executor.
Variable query : string.

Lemma events_app (st : SearchProgress.Status) (n : string)
  (l1 l2 : list SearchProgress.t) :
  events st n (l1 ++ l2) = events st n l1 + events st n l2.
Proof.
  unfold events. rewrite List.filter_app, List.length_app. reflexivity.
Qed.

Lemma start_log (selected : list IDataSource) (log : list SearchProgress.t) :
  fold_left (QueryOrchestrator.start (Some record)) selected log
  = log ++ map searchingEvent selected.
Proof.
  revert log. induction selected as [| ds rest IH]; intros log; simpl.
  - rewrite app_nil_r. reflexivity.
  - rewrite IH. unfold QueryOrchestrator.start, QueryOrchestrator.notify, record.
    rewrite <- app_assoc. reflexivity.
Qed.

Lemma resume_result (W : Type)
  (onProgress : option (SearchProgress.t -> W -> W))
  (ds : IDataSource) (w : W) :
  fst (QueryOrchestrator.resume onProgress query ds w) = contribution query ds.
Proof.
  unfold QueryOrchestrator.resume, contribution.
  destruct (search ds query); reflexivity.
Qed.

Lemma resume_log (order : list IDataSource) (log : list SearchProgress.t) :
  fold_left
    (fun w ds => snd (QueryOrchestrator.resume (Some record) query ds w))
    order log
  = log ++ map (terminalEvent query) order.
Proof.
  revert log. induction order as [| ds rest IH]; intros log; simpl.
  - rewrite app_nil_r. reflexivity.
  - rewrite IH.
    unfold QueryOrchestrator.resume, terminalEvent, QueryOrchestrator.notify, record.
    destruct (search ds query); simpl; rewrite <- app_assoc; reflexivity.
Qed.

(** Every pending search settles exactly once, whatever the schedule. *)
Lemma removeAt_perm (A : Type) (k : nat) (l : list A) (d : A) :
  k < List.length l ->
  Permutation (nth k l d :: QueryOrchestrator.removeAt k l) l.
Proof.
  revert k. induction l as [| x rest IH]; intros k Hk; simpl in Hk.
  - lia.
  - destruct k as [| k]; simpl.
    + reflexivity.
    + rewrite perm_swap. apply perm_skip. apply IH. lia.
Qed.

Lemma settleOrder_perm (A : Type) (fuel : nat) (schedule : list nat)
  (pending : list A) :
  fuel = List.length pending ->
  Permutation (QueryOrchestrator.settleOrder fuel schedule pending) pending.
Proof.
  revert schedule pending.
  induction fuel as [| fuel IH]; intros schedule pending Hfuel.
  - destruct pending; [constructor | discriminate].
  - destruct pending as [| first rest]; [discriminate |].
    cbn [QueryOrchestrator.settleOrder].
    set (k := Nat.modulo (hd 0 schedule) (List.length (first :: rest))).
    assert (Hk : k < List.length (first :: rest)).
    { apply Nat.mod_upper_bound. simpl. lia. }
    pose proof (removeAt_perm (first :: rest) first Hk) as Hperm.
    eapply Permutation_trans; [| exact Hperm].
    apply perm_skip. apply IH.
    apply Permutation_length in Hperm.
    simpl in Hperm, Hfuel. lia.
Qed.

Lemma filter_length_perm (A : Type) (f : A -> bool) (l l' : list A) :
  Permutation l l' ->
  List.length (List.filter f l) = List.length (List.filter f l').
Proof.
  induction 1 as [| x l l' _ IH | x y l | l l' l'' _ IH1 _ IH2]; simpl.
  - reflexivity.
  - destruct (f x); simpl; congruence.
  - destruct (f x), (f y); reflexivity.
  - congruence.
Qed.

Lemma events_searching (st : SearchProgress.Status) (n : string)
  (l : list IDataSource) :
  st <> SearchProgress.searching ->
  events st n (map searchingEvent l) = 0.
Proof.
  intros Hst. unfold events.
  induction l as [| ds rest IH]; simpl; [reflexivity |].
  destruct st; simpl; try contradiction; exact IH.
Qed.

Lemma events_terminal (ok : bool) (n : string) (l : list IDataSource) :
  events (if ok then SearchProgress.completed else SearchProgress.error) n
    (map (terminalEvent query) l)
  = backends ok query n l.
Proof.
  unfold events, backends.
  induction l as [| ds rest IH]; simpl; [reflexivity |].
  assert (Hsource : SearchProgress.source (terminalEvent query ds) = name ds)
    by (unfold terminalEvent; destruct (search ds query); reflexivity).
  assert (Hstatus : SearchProgress.status (terminalEvent query ds)
                    = if succeeds query ds then SearchProgress.completed
                      else SearchProgress.error)
    by (unfold terminalEvent, succeeds; destruct (search ds query); reflexivity).
  rewrite Hsource, Hstatus.
  destruct (succeeds query ds), ok; simpl in *;
    destruct (String.eqb (name ds) n); simpl; rewrite IH; reflexivity.
Qed.

(** A backend whose search failed adds nothing to the pool. *)
Lemma pool_of_successes (l : list IDataSource) :
  List.concat (map (contribution query) l)
  = List.concat (map (contribution query) (List.filter (succeeds query) l)).
Proof.
  induction l as [| ds rest IH]; simpl; [reflexivity |].
  unfold succeeds at 1, contribution at 1.
  destruct (search ds query) eqn:Hsearch; simpl.
  - unfold contribution at 2. rewrite Hsearch, IH. reflexivity.
  - exact IH.
Qed.

Lemma search_result (W : Type)
  (onProgress : option (SearchProgress.t -> W -> W))
  (dataSources : list IDataSource) (schedule : list nat)
  (selected : list IDataSource) (w : W) :
  QueryOrchestrator.sourcesToSearch dataSources query = Normal selected ->
  fst (QueryOrchestrator.search dataSources onProgress query schedule w)
  = Normal (QueryOrchestrator.rankResults
              (List.concat (map (contribution query) selected)) query).
Proof.
  intros Hselected. unfold QueryOrchestrator.search. rewrite Hselected. simpl.
  do 3 f_equal. apply map_ext. intros ds. apply resume_result.
Qed.

(** Any sink is handed the events of the recording sink, in the same
    order; without a sink the state of the caller is left alone. *)
Lemma start_sink (W : Type) (callback : SearchProgress.t -> W -> W)
  (selected : list IDataSource) (w : W) :
  fold_left (QueryOrchestrator.start (Some callback)) selected w
  = fold_left (fun w p => callback p w) (map searchingEvent selected) w.
Proof.
  revert w. induction selected as [| ds rest IH]; intros w; simpl.
  - reflexivity.
  - apply IH.
Qed.

Lemma resume_sink (W : Type) (callback : SearchProgress.t -> W -> W)
  (order : list IDataSource) (w : W) :
  fold_left
    (fun w ds => snd (QueryOrchestrator.resume (Some callback) query ds w))
    order w
  = fold_left (fun w p => callback p w) (map (terminalEvent query) order) w.
Proof.
  revert w. induction order as [| ds rest IH]; intros w; simpl.
  - reflexivity.
  - rewrite IH. f_equal.
    unfold QueryOrchestrator.resume, terminalEvent, QueryOrchestrator.notify.
    destruct (search ds query); reflexivity.
Qed.

Lemma search_sink (W : Type) (callback : SearchProgress.t -> W -> W)
  (dataSources : list IDataSource) (schedule : list nat) (w : W) :
  snd (QueryOrchestrator.search dataSources (Some callback) query schedule w)
  = fold_left (fun w p => callback p w)
      (snd (QueryOrchestrator.search dataSources (Some record) query
              schedule []))
      w.
Proof.
  unfold QueryOrchestrator.search.
  destruct (QueryOrchestrator.sourcesToSearch dataSources query)
    as [selected | e]; simpl; [| reflexivity].
  rewrite start_log, resume_log, start_sink, resume_sink. simpl.
  rewrite fold_left_app. reflexivity.
Qed.

Lemma search_without_sink (W : Type) (dataSources : list IDataSource)
  (schedule : list nat) (w : W) :
  snd (QueryOrchestrator.search dataSources None query schedule w) = w.
Proof.
  unfold QueryOrchestrator.search.
  destruct (QueryOrchestrator.sourcesToSearch dataSources query)
    as [selected | e]; simpl; [| reflexivity].
  generalize (QueryOrchestrator.settleOrder (List.length selected) schedule
                selected) as order.
  assert (Hstart : fold_left (QueryOrchestrator.start None) selected w = w).
  { induction selected as [| ds rest IH]; simpl; [reflexivity | exact IH]. }
  rewrite Hstart. intros order.
  induction order as [| ds rest IH]; simpl; [reflexivity |].
  unfold QueryOrchestrator.resume at 2.
  destruct (search ds query); simpl; exact IH.
Qed.

(** With the recording sink, the log is the [searching] events of the
    search set in registration order, followed by the terminal events in
    the order in which the searches settled. *)
Lemma search_log (dataSources : list IDataSource) (schedule : list nat)
  (selected : list IDataSource) :
  QueryOrchestrator.sourcesToSearch dataSources query = Normal selected ->
  snd (QueryOrchestrator.search dataSources (Some record) query schedule [])
  = map searchingEvent selected
    ++ map (terminalEvent query)
         (QueryOrchestrator.settleOrder (List.length selected) schedule selected).
Proof.
  intros Hselected. unfold QueryOrchestrator.search. rewrite Hselected. simpl.
  rewrite start_log, resume_log. reflexivity.
Qed.

Lemma search_events (ok : bool) (n : string)
  (dataSources : list IDataSource) (schedule : list nat)
  (selected : list IDataSource) :
  QueryOrchestrator.sourcesToSearch dataSources query = Normal selected ->
  events (if ok then SearchProgress.completed else SearchProgress.error) n
    (snd (QueryOrchestrator.search dataSources (Some record) query schedule []))
  = backends ok query n selected.
Proof.
  intros Hselected. rewrite (search_log _ _ Hselected), events_app.
  rewrite events_searching by (destruct ok; discriminate).
  rewrite events_terminal. unfold backends.
  apply filter_length_perm, settleOrder_perm. reflexivity.
Qed.

Lemma pool_In (l : list IDataSource) (r : SearchResult) :
  In r (List.concat (map (contribution query) l))
  <-> exists ds results,
        In ds l /\ search ds query = Normal results /\ In r results.
Proof.
  rewrite List.in_concat. split.
  - intros [results [Hresults Hr]]. apply in_map_iff in Hresults.
    destruct Hresults as [ds [Hds Hin]]. exists ds, results.
    unfold contribution in Hds.
    destruct (search ds query) as [found | e]; subst.
    + tauto.
    + contradiction.
  - intros [ds [results [Hin [Hsearch Hr]]]]. exists results.
    split; [| exact Hr]. apply in_map_iff. exists ds.
    unfold contribution. rewrite Hsearch. tauto.
Qed.

Lemma backends_absent (ok : bool) (n : string) (l : list IDataSource) :
  ~ In n (map name l) -> backends ok query n l = 0.
Proof.
  unfold backends. induction l as [| d rest IH]; simpl; intros Hnotin.
  - reflexivity.
  - destruct (String.eqb (name d) n) eqn:Heq.
    + apply String.eqb_eq in Heq. exfalso. apply Hnotin. left. exact Heq.
    + rewrite andb_false_r. apply IH. intros H. apply Hnotin. right. exact H.
Qed.

(** When the selected backends have distinct names, a name stands for one
    backend, and the count of C4 is one. *)
Lemma backends_distinct (ok : bool) (selected : list IDataSource)
  (ds : IDataSource) :
  NoDup (map name selected) ->
  In ds selected ->
  succeeds query ds = ok ->
  backends ok query (name ds) selected = 1.
Proof.
  intros Hnodup Hin Hok.
  induction selected as [| d rest IH]; simpl in *; [contradiction |].
  inversion Hnodup as [| ? ? Hnotin Hrest]; subst.
  destruct Hin as [-> | Hin].
  - pose proof (@backends_absent (succeeds query ds) (name ds) rest Hnotin)
      as Hrest0.
    unfold backends in *. simpl.
    rewrite Bool.eqb_reflx, String.eqb_refl. simpl. rewrite Hrest0.
    reflexivity.
  - specialize (IH Hrest Hin). unfold backends in *. simpl.
    destruct (String.eqb (name d) (name ds)) eqn:Heq.
    + apply String.eqb_eq in Heq. exfalso. apply Hnotin.
      rewrite Heq. apply in_map. exact Hin.
    + rewrite andb_false_r. exact IH.
Qed.

(** The exception of the first relevance check that raises is the one
    the call ends with. *)
Lemma first_relevance_failure (W : Type)
  (onProgress : option (SearchProgress.t -> W -> W))
  (before after : list IDataSource) (ds : IDataSource) (e : string)
  (schedule : list nat) (w : W) :
  Forall (answers query) before ->
  isRelevantFor ds query = Throw e ->
  QueryOrchestrator.search (before ++ ds :: after) onProgress query schedule w
  = (Throw e, w).
Proof.
  intros Hbefore Hds.
  unfold QueryOrchestrator.search, QueryOrchestrator.sourcesToSearch,
    QueryOrchestrator.relevantSources.
  rewrite (filter_throws after ds Hbefore Hds). reflexivity.
Qed.

(** C8. With no backend registered the call returns the empty sequence
    and leaves the state of the sink as it was; the recording sink has
    recorded no event. *)
Theorem no_backends_no_results_no_events (schedule : list nat) :
  (forall (W : Type) (onProgress : option (SearchProgress.t -> W -> W)) (w : W),
      QueryOrchestrator.search [] onProgress query schedule w = (Normal [], w))
  /\ QueryOrchestrator.search [] (Some record) query schedule []
     = (Normal [], []).
Proof.
  split; reflexivity.
Qed.

End Executor.

(** The run of the isolation example: B settles before A. *)
Example isolation_run :
  QueryOrchestrator.search
    [backend "A" (Normal true) (Throw "timeout");
     backend "B" (Normal true) (Normal [result "B" "Guide" 0.9])]
    (Some record) "guide" [1] []
  = (Normal [result "B" "Guide" 0.9],
     [ {| SearchProgress.source := "A";
          SearchProgress.status := SearchProgress.searching;
          SearchProgress.resultCount := None |};
       {| SearchProgress.source := "B";
          SearchProgress.status := SearchProgress.searching;
          SearchProgress.resultCount := None |};
       {| SearchProgress.source := "B";
          SearchProgress.status := SearchProgress.completed;
          SearchProgress.resultCount := Some 1 |};
       {| SearchProgress.source := "A";
          SearchProgress.status := SearchProgress.error;
          SearchProgress.resultCount := None |} ]).
Proof. reflexivity. Qed.

Example first_relevance_failure_example :
  isRelevantFor (backend "Broken" (Throw "boom") (Normal [])) "guide"
  = Throw "boom"
  /\ QueryOrchestrator.search
       ([backend "Docs" (Normal false) (Normal [])]
        ++ backend "Broken" (Throw "boom") (Normal [])
        :: [backend "Web" (Normal true) (Normal [result "Web" "Guide" 0.9])])
       (Some record) "guide" [] []
     = (Throw "boom", []).
Proof.
  split; [reflexivity |].
  apply (@first_relevance_failure "guide" _ (Some record)
           [backend "Docs" (Normal false) (Normal [])]
           [backend "Web" (Normal true) (Normal [result "Web" "Guide" 0.9])]
           (backend "Broken" (Throw "boom") (Normal [])) "boom" [] []).
  - repeat constructor. exists false. reflexivity.
  - reflexivity.
Qed.

(** C5 as the claim has it fails: the relevance check of the first backend
    raises, and the call ends with that exception without searching the
    second backend, where the claim has the second backend searched as if
    the first were not registered. *)
Lemma relevance_failure_not_contained :
  isRelevantFor (backend "Broken" (Throw "boom") (Normal [])) "guide"
  = Throw "boom"
  /\ QueryOrchestrator.search
       [backend "Broken" (Throw "boom") (Normal []);
        backend "Web" (Normal true) (Normal [result "Web" "Guide" 0.9])]
       (Some record) "guide" [] []
     = (Throw "boom", [])
  /\ QueryOrchestrator.search
       [backend "Web" (Normal true) (Normal [result "Web" "Guide" 0.9])]
       (Some record) "guide" [] []
     = (Normal [result "Web" "Guide" 0.9],
        [ {| SearchProgress.source := "Web";
             SearchProgress.status := SearchProgress.searching;
             SearchProgress.resultCount := None |};
          {| SearchProgress.source := "Web";
             SearchProgress.status := SearchProgress.completed;
             SearchProgress.resultCount := Some 1 |} ]).
Proof. repeat split. Qed.

(* ================================================================= *)
(** ** Formatting *)

Section Formatting.

Lemma append_assoc (a b c : string) :
  ((a ++ b) ++ c)%string = (a ++ (b ++ c))%string.
Proof. induction a as [| x a IH]; simpl; congruence. Qed.

Lemma template_cons (piece : string) (pieces : list string) :
  JS.template (piece :: pieces) = (piece ++ JS.template pieces)%string.
Proof. reflexivity. Qed.

Lemma template_app (l1 l2 : list string) :
  JS.template (l1 ++ l2) = (JS.template l1 ++ JS.template l2)%string.
Proof.
  induction l1 as [| x l1 IH]; simpl; [reflexivity |].
  fold (JS.template (l1 ++ l2)). fold (JS.template l1).
  rewrite IH, append_assoc. reflexivity.
Qed.

Lemma template_snoc (pieces : list string) (piece : string) :
  JS.template (pieces ++ [piece]) = (JS.template pieces ++ piece)%string.
Proof.
  rewrite template_app. simpl. rewrite append_empty. reflexivity.
Qed.

(** C6. An empty sequence is answered by the fixed message, whatever the
    limit, given or omitted. *)
Theorem format_empty (maxResults : option Z) :
  QueryOrchestrator.formatResults [] maxResults
  = Normal QueryOrchestrator.noResults.
Proof. destruct maxResults; reflexivity. Qed.

Lemma formatItem_render (formatted : string) (item : SearchResult) :
  QueryOrchestrator.formatItem formatted item
  = (formatted ++ renderItem item)%string.
Proof.
  unfold QueryOrchestrator.formatItem, renderItem, QueryOrchestrator.truthy.
  destruct (url item) as [[| c u] |]; simpl;
    rewrite ?append_assoc, ?append_empty; simpl;
    rewrite ?append_assoc; simpl; rewrite ?append_assoc; reflexivity.
Qed.

Lemma fold_formatItem (items : list SearchResult) (formatted : string) :
  fold_left QueryOrchestrator.formatItem items formatted
  = (formatted ++ JS.template (map renderItem items))%string.
Proof.
  revert formatted. induction items as [| item rest IH]; intros formatted.
  - simpl. rewrite append_empty. reflexivity.
  - cbn [fold_left map]. rewrite IH, formatItem_render, template_cons.
    apply append_assoc.
Qed.

Lemma formatGroup_render (formatted : string)
  (g : string * list SearchResult) :
  QueryOrchestrator.formatGroup formatted g
  = (formatted ++ renderGroup g)%string.
Proof.
  destruct g as [s items]. unfold QueryOrchestrator.formatGroup, renderGroup.
  rewrite fold_formatItem. cbn [fst snd].
  rewrite append_assoc. f_equal.
  symmetry. apply (template_snoc [_; _; _; _; _; _]).
Qed.

Lemma fold_formatGroup (groups : list (string * list SearchResult))
  (formatted : string) :
  fold_left QueryOrchestrator.formatGroup groups formatted
  = (formatted ++ JS.template (map renderGroup groups))%string.
Proof.
  revert formatted. induction groups as [| g rest IH]; intros formatted.
  - simpl. rewrite append_empty. reflexivity.
  - cbn [fold_left map]. rewrite IH, formatGroup_render, template_cons.
    apply append_assoc.
Qed.

(** *** First appearances *)

Lemma firstAppearance_In (l : list string) (s : string) :
  In s (firstAppearance l) <-> In s l.
Proof.
  induction l as [| x rest IH]; simpl; [tauto |].
  rewrite List.filter_In, IH, negb_true_iff, String.eqb_neq.
  destruct (String.eqb_spec x s); [tauto |].
  split; [tauto |]. intros [H | H]; [contradiction |].
  right. split; [exact H | congruence].
Qed.

Lemma firstAppearance_NoDup (l : list string) : NoDup (firstAppearance l).
Proof.
  induction l as [| x rest IH]; simpl; constructor.
  - rewrite List.filter_In, negb_true_iff, String.eqb_neq. tauto.
  - apply List.NoDup_filter. exact IH.
Qed.

Lemma filter_absent (l : list string) (x : string) :
  ~ In x l -> List.filter (fun s' => negb (String.eqb s' x)) l = l.
Proof.
  induction l as [| y rest IH]; simpl; intros Hnotin; [reflexivity |].
  destruct (String.eqb_spec y x); simpl; [tauto |].
  rewrite IH; tauto.
Qed.

Lemma firstAppearance_snoc (l : list string) (x : string) :
  firstAppearance (l ++ [x])
  = if existsb (String.eqb x) l then firstAppearance l
    else firstAppearance l ++ [x].
Proof.
  induction l as [| y rest IH]; simpl; [reflexivity |].
  rewrite IH. destruct (String.eqb_spec x y) as [-> | Hxy]; simpl.
  - destruct (existsb (String.eqb y) rest); [reflexivity |].
    rewrite List.filter_app. simpl. rewrite String.eqb_refl. simpl.
    rewrite app_nil_r. reflexivity.
  - destruct (existsb (String.eqb x) rest); [reflexivity |].
    rewrite List.filter_app. simpl.
    destruct (String.eqb_spec x y); [contradiction |]. reflexivity.
Qed.

Lemma existsb_In (l : list string) (x : string) :
  existsb (String.eqb x) l = true <-> In x l.
Proof. apply has_In. Qed.

(** *** The object built by [groupBySource] *)

Lemma getOwn_absent (V : Type) (o : JS.Obj.t V) (k : string) :
  ~ In k (map fst o) -> JS.Obj.getOwn o k = None.
Proof.
  induction o as [| [k' v] rest IH]; simpl; intros Hnotin; [reflexivity |].
  destruct (String.eqb_spec k' k); [tauto |]. apply IH. tauto.
Qed.

Lemma set_absent (V : Type) (o : JS.Obj.t V) (k : string) (v : V) :
  ~ In k (map fst o) -> JS.Obj.set o k v = o ++ [(k, v)].
Proof.
  induction o as [| [k' v'] rest IH]; simpl; intros Hnotin; [reflexivity |].
  destruct (String.eqb_spec k' k); [tauto |]. rewrite IH; tauto.
Qed.

Lemma set_last (V : Type) (o : JS.Obj.t V) (k : string) (v v' : V) :
  ~ In k (map fst o) ->
  JS.Obj.set (o ++ [(k, v)]) k v' = o ++ [(k, v')].
Proof.
  induction o as [| [k0 v0] rest IH]; simpl; intros Hnotin.
  - rewrite String.eqb_refl. reflexivity.
  - destruct (String.eqb_spec k0 k); [tauto |]. rewrite IH; tauto.
Qed.

Lemma getOwn_last (V : Type) (o : JS.Obj.t V) (k : string) (v : V) :
  ~ In k (map fst o) -> JS.Obj.getOwn (o ++ [(k, v)]) k = Some v.
Proof.
  induction o as [| [k0 v0] rest IH]; simpl; intros Hnotin.
  - rewrite String.eqb_refl. reflexivity.
  - destruct (String.eqb_spec k0 k); [tauto |]. apply IH. tauto.
Qed.

Section Table.
Variable V : Type.
Variable g : string -> V.

Lemma table_keys (keys : list string) : map fst (table g keys) = keys.
Proof.
  unfold table. rewrite map_map. simpl. apply map_id.
Qed.

Lemma getOwn_table (keys : list string) (k : string) :
  In k keys -> JS.Obj.getOwn (table g keys) k = Some (g k).
Proof.
  induction keys as [| s rest IH]; simpl; [contradiction |].
  destruct (String.eqb_spec s k) as [-> | Hneq]; [reflexivity |].
  intros [H | H]; [contradiction | apply IH, H].
Qed.

Lemma set_table (keys : list string) (k : string) (v : V) :
  NoDup keys ->
  In k keys ->
  JS.Obj.set (table g keys) k v
  = map (fun s => (s, if String.eqb s k then v else g s)) keys.
Proof.
  induction 1 as [| s rest Hnotin Hnodup IH]; simpl; [contradiction |].
  destruct (String.eqb_spec s k) as [-> | Hneq].
  - intros _. f_equal. apply map_ext_in. intros s Hs.
    destruct (String.eqb_spec s k); [congruence | reflexivity].
  - intros [H | H]; [contradiction |]. rewrite (IH H). reflexivity.
Qed.
End Table.

Lemma filter_from_snoc (s : string) (l : list SearchResult)
  (r : SearchResult) :
  List.filter (from s) (l ++ [r])
  = if String.eqb s (source r) then List.filter (from s) l ++ [r]
    else List.filter (from s) l.
Proof.
  rewrite List.filter_app. simpl. unfold from at 2.
  rewrite (String.eqb_sym (source r) s).
  destruct (String.eqb s (source r)); [reflexivity | apply app_nil_r].
Qed.

Lemma filter_from_absent (s : string) (l : list SearchResult) :
  ~ In s (map source l) -> List.filter (from s) l = [].
Proof.
  induction l as [| r rest IH]; simpl; intros Hnotin; [reflexivity |].
  unfold from at 1. destruct (String.eqb_spec (source r) s); [tauto |].
  apply IH. tauto.
Qed.

Lemma groupsOf_table (l : list SearchResult) :
  groupsOf l
  = table (fun s => List.filter (from s) l) (firstAppearance (map source l)).
Proof. reflexivity. Qed.

Lemma groupsOf_snoc_new (l : list SearchResult) (r : SearchResult) :
  ~ In (source r) (map source l) ->
  groupsOf (l ++ [r]) = groupsOf l ++ [(source r, [r])].
Proof.
  intros Hnew. unfold groupsOf.
  rewrite map_app. simpl. rewrite firstAppearance_snoc.
  destruct (existsb (String.eqb (source r)) (map source l)) eqn:Hex.
  { apply existsb_In in Hex. contradiction. }
  rewrite map_app. simpl. f_equal.
  - apply map_ext_in. intros s Hs. rewrite filter_from_snoc.
    destruct (String.eqb_spec s (source r)) as [Heq | Hneq]; [| reflexivity].
    exfalso. apply Hnew. rewrite <- Heq. apply firstAppearance_In. exact Hs.
  - rewrite filter_from_snoc, String.eqb_refl, filter_from_absent by exact Hnew.
    reflexivity.
Qed.

Lemma groupsOf_snoc_old (l : list SearchResult) (r : SearchResult) :
  In (source r) (map source l) ->
  groupsOf (l ++ [r])
  = JS.Obj.set (groupsOf l) (source r)
      (List.filter (from (source r)) l ++ [r]).
Proof.
  intros Hold. rewrite (groupsOf_table l), set_table.
  - unfold groupsOf. rewrite map_app. simpl. rewrite firstAppearance_snoc.
    apply existsb_In in Hold. rewrite Hold.
    apply map_ext. intros s. rewrite filter_from_snoc.
    destruct (String.eqb_spec s (source r)) as [-> | Hneq]; reflexivity.
  - apply firstAppearance_NoDup.
  - apply firstAppearance_In. exact Hold.
Qed.

Lemma groupsOf_keys (l : list SearchResult) :
  map fst (groupsOf l) = firstAppearance (map source l).
Proof. rewrite groupsOf_table. apply table_keys. Qed.

Lemma get_old (l : list SearchResult) (k : string) :
  In k (map source l) ->
  JS.Obj.get (groupsOf l) k = JS.Obj.Own (List.filter (from k) l).
Proof.
  intros Hold. unfold JS.Obj.get. rewrite groupsOf_table, getOwn_table.
  - reflexivity.
  - apply firstAppearance_In. exact Hold.
Qed.

Lemma get_new (l : list SearchResult) (k : string) :
  ~ In k (map source l) ->
  JS.Obj.isInherited k = false ->
  JS.Obj.get (groupsOf l) k = JS.Obj.Undefined.
Proof.
  intros Hnew Hordinary. unfold JS.Obj.get.
  rewrite getOwn_absent, Hordinary; [reflexivity |].
  rewrite groupsOf_keys, firstAppearance_In. exact Hnew.
Qed.

(** One call of the reducer extends the groups by one result, unless the
    source of the result names a property of [Object.prototype]. *)
Lemma group_snoc (l : list SearchResult) (r : SearchResult) :
  JS.Obj.isInherited (source r) = false ->
  QueryOrchestrator.group (groupsOf l) r = Normal (groupsOf (l ++ [r])).
Proof.
  intros Hordinary. unfold QueryOrchestrator.group.
  destruct (in_dec string_dec (source r) (map source l)) as [Hold | Hnew].
  - rewrite !(get_old l _ Hold), groupsOf_snoc_old by exact Hold.
    reflexivity.
  - assert (Hkeys : ~ In (source r) (map fst (groupsOf l))).
    { rewrite groupsOf_keys, firstAppearance_In. exact Hnew. }
    rewrite get_new by assumption.
    rewrite set_absent by exact Hkeys. unfold JS.Obj.get.
    rewrite getOwn_last by exact Hkeys.
    rewrite set_last, groupsOf_snoc_new by assumption.
    reflexivity.
Qed.

Lemma groupBySource_from (done rest : list SearchResult) :
  Forall (fun r => JS.Obj.isInherited (source r) = false) rest ->
  fold_left (fun acc r => acc <- acc ;; QueryOrchestrator.group acc r)
    rest (Normal (groupsOf done))
  = Normal (groupsOf (done ++ rest)).
Proof.
  intros Hordinary. revert done.
  induction Hordinary as [| r rest Hr _ IH]; intros done; simpl.
  - rewrite app_nil_r. reflexivity.
  - rewrite (@group_snoc done r Hr), IH, <- app_assoc. reflexivity.
Qed.

Lemma groupBySource_groupsOf (l : list SearchResult) :
  Forall (fun r => JS.Obj.isInherited (source r) = false) l ->
  QueryOrchestrator.groupBySource l = Normal (groupsOf l).
Proof.
  intros Hordinary. exact (@groupBySource_from [] l Hordinary).
Qed.

(** *** The order of [Object.entries] *)

Lemma insertIndex_perm (V : Type) (n : N) (e : string * V)
  (l : list (N * (string * V))) :
  Permutation ((n, e) :: l) (JS.Obj.insertIndex n e l).
Proof.
  induction l as [| [m e'] rest IH]; simpl; [reflexivity |].
  destruct (m <? n)%N; [| reflexivity].
  rewrite perm_swap. apply perm_skip. exact IH.
Qed.

Lemma indexEntries_perm (V : Type) (o : JS.Obj.t V) :
  Permutation (map snd (JS.Obj.indexEntries o))
    (List.filter (fun e => JS.Obj.isArrayIndex (fst e)) o).
Proof.
  induction o as [| [k v] rest IH]; simpl; [constructor |].
  unfold JS.Obj.isArrayIndex at 1. simpl.
  destruct (JS.Obj.arrayIndex k) as [n |]; [| exact IH].
  rewrite <- (insertIndex_perm n (k, v)). simpl. apply perm_skip. exact IH.
Qed.

Lemma filter_partition_perm (A : Type) (f : A -> bool) (l : list A) :
  Permutation (List.filter f l ++ List.filter (fun a => negb (f a)) l) l.
Proof.
  induction l as [| a rest IH]; simpl; [constructor |].
  destruct (f a); simpl.
  - apply perm_skip. exact IH.
  - rewrite <- Permutation_middle. apply perm_skip. exact IH.
Qed.

Lemma entries_perm (V : Type) (o : JS.Obj.t V) :
  Permutation (JS.Obj.entries o) o.
Proof.
  unfold JS.Obj.entries. rewrite indexEntries_perm.
  apply filter_partition_perm.
Qed.

Lemma insertIndex_sorted (V : Type) (n : N) (e : string * V)
  (l : list (N * (string * V))) :
  StronglySorted (fun a b => (fst a <= fst b)%N) l ->
  StronglySorted (fun a b => (fst a <= fst b)%N) (JS.Obj.insertIndex n e l).
Proof.
  induction 1 as [| [m e'] rest Hrest IH Hm]; simpl.
  - repeat constructor.
  - destruct (N.ltb_spec m n).
    + constructor; [exact IH |].
      apply (Permutation_Forall (insertIndex_perm n e rest)).
      constructor; [simpl; lia | exact Hm].
    + constructor; [constructor; assumption |].
      constructor; [simpl; lia |].
      eapply Forall_impl; [| exact Hm]. simpl. intros a Ha. lia.
Qed.

(** The array-index keys come out in ascending numeric order. *)
Lemma indexEntries_sorted (V : Type) (o : JS.Obj.t V) :
  StronglySorted (fun a b => (fst a <= fst b)%N) (JS.Obj.indexEntries o).
Proof.
  induction o as [| [k v] rest IH]; simpl; [constructor |].
  destruct (JS.Obj.arrayIndex k); [apply insertIndex_sorted |]; exact IH.
Qed.

(** Without array-index keys the entries come out in creation order. *)
Lemma entries_ordinary (V : Type) (o : JS.Obj.t V) :
  Forall (fun e => JS.Obj.isArrayIndex (fst e) = false) o ->
  JS.Obj.entries o = o.
Proof.
  intros Hordinary. unfold JS.Obj.entries.
  assert (Hindex : JS.Obj.indexEntries o = []).
  { induction Hordinary as [| [k v] rest Hk _ IH]; simpl; [reflexivity |].
    unfold JS.Obj.isArrayIndex in Hk. simpl in Hk.
    destruct (JS.Obj.arrayIndex k); [discriminate | exact IH]. }
  rewrite Hindex. simpl.
  induction Hordinary as [| e rest He _ IH]; simpl; [reflexivity |].
  rewrite He. simpl. f_equal. apply IH.
  simpl in Hindex. destruct e as [k v]. simpl in Hindex.
  unfold JS.Obj.isArrayIndex in He. simpl in He.
  destruct (JS.Obj.arrayIndex k); [discriminate | exact Hindex].
Qed.

(** *** The summary of a non-empty sequence *)

Lemma slice0_firstn (A : Type) (l : list A) (limit : Z) :
  (0 <= limit)%Z -> JS.slice0 l limit = firstn (Z.to_nat limit) l.
Proof.
  intros Hlimit. unfold JS.slice0.
  destruct (Z.ltb_spec limit 0); [lia |].
  destruct (Z.le_ge_cases limit (Z.of_nat (List.length l))) as [Hle | Hge].
  - rewrite Z.min_l by exact Hle. reflexivity.
  - rewrite Z.min_r by exact Hge. rewrite Nat2Z.id.
    rewrite List.firstn_all, List.firstn_all2; [reflexivity | lia].
Qed.

Lemma slice0_negative (A : Type) (l : list A) (limit : Z) :
  (limit < 0)%Z ->
  JS.slice0 l limit = firstn (List.length l - Z.to_nat (- limit)) l.
Proof.
  intros Hlimit. unfold JS.slice0.
  destruct (Z.ltb_spec limit 0); [| lia].
  f_equal. lia.
Qed.

Lemma formatResults_groupsOf (r : SearchResult) (rest : list SearchResult)
  (limit : Z) :
  Forall (fun x => JS.Obj.isInherited (source x) = false)
    (JS.slice0 (r :: rest) limit) ->
  QueryOrchestrator.formatResults (r :: rest) (Some limit)
  = Normal (render (List.length (r :: rest))
              (JS.Obj.entries (groupsOf (JS.slice0 (r :: rest) limit)))).
Proof.
  intros Hordinary. unfold QueryOrchestrator.formatResults.
  cbn [List.length Nat.eqb].
  rewrite (groupBySource_groupsOf Hordinary). cbn [bind].
  rewrite fold_formatGroup. unfold render, header, JS.Obj.keys.
  rewrite List.length_map. reflexivity.
Qed.

(** C7, as the code has it.  For a non-empty sequence whose truncated part
    has no source named like a property of [Object.prototype], the summary
    is the header with the length of the whole sequence and the number of
    groups, followed by the groups of the truncated part; the truncated
    part is [slice(0, limit)], the first [limit] results when the limit is
    not negative; there is one group per distinct source of the truncated
    part, holding the results of that source in rank order and rendered
    with title, content and non-empty URL; the groups come in the order
    of [Object.entries], which is the order of first appearance when no
    source is an array index. *)
Theorem format_nonempty (results : list SearchResult) (limit : Z) :
  results <> [] ->
  Forall (fun r => JS.Obj.isInherited (source r) = false)
    (JS.slice0 results limit) ->
  QueryOrchestrator.formatResults results (Some limit)
  = Normal (render (List.length results)
              (JS.Obj.entries (groupsOf (JS.slice0 results limit))))
  /\ List.length (JS.Obj.entries (groupsOf (JS.slice0 results limit)))
     = List.length (firstAppearance (map source (JS.slice0 results limit)))
  /\ (Forall (fun r => JS.Obj.isArrayIndex (source r) = false)
        (JS.slice0 results limit) ->
      JS.Obj.entries (groupsOf (JS.slice0 results limit))
      = groupsOf (JS.slice0 results limit))
  /\ ((0 <= limit)%Z ->
      JS.slice0 results limit = firstn (Z.to_nat limit) results).
Proof.
  intros Hnonempty Hordinary.
  destruct results as [| r rest]; [contradiction |].
  split; [apply formatResults_groupsOf, Hordinary |].
  split; [| split].
  - rewrite (Permutation_length (entries_perm _)).
    rewrite <- groupsOf_keys. symmetry. apply List.length_map.
  - intros Hnoindex. apply entries_ordinary.
    apply Forall_forall. intros [k items] Hin. simpl.
    assert (Hk : In k (map fst (groupsOf (JS.slice0 (r :: rest) limit))))
      by (apply (in_map fst) in Hin; exact Hin).
    rewrite groupsOf_keys, firstAppearance_In, in_map_iff in Hk.
    destruct Hk as [x [<- Hx]].
    rewrite Forall_forall in Hnoindex. apply Hnoindex, Hx.
  - apply slice0_firstn.
Qed.

Lemma format_nonempty_witness :
  QueryOrchestrator.formatResults
    [result "Web" "a" 0.9; result "Slack" "b" 0.8; result "Web" "c" 0.7]
    (Some 2%Z)
  = Normal
      (render 3
         (JS.Obj.entries
            (groupsOf
               (JS.slice0
                  [result "Web" "a" 0.9; result "Slack" "b" 0.8;
                   result "Web" "c" 0.7] 2)))).
Proof.
  apply (@format_nonempty
           [result "Web" "a" 0.9; result "Slack" "b" 0.8; result "Web" "c" 0.7]
           2%Z).
  - discriminate.
  - repeat constructor.
Defined.

(** The summary of the witness, spelled out. *)
Example format_example :
  QueryOrchestrator.formatResults
    [ {| source := "Web"; title := "a"; content := "x";
         url := Some "http://a"%string; relevanceScore := 0.9;
         metadata := None |};
      result "Slack" "b" 0.8; result "Web" "c" 0.7 ]
    (Some 2%Z)
  = Normal
      (JS.template
         [ "Found 3 results across 2 sources:"; JS.LF; JS.LF;
           "**Web** (1 results):"; JS.LF;
           "- **a**"; JS.LF; "  x"; JS.LF; "  http://a"; JS.LF; JS.LF;
           "**Slack** (1 results):"; JS.LF;
           "- **b**"; JS.LF; "  "; JS.LF; JS.LF ]%string).
Proof. reflexivity. Qed.

(** C7 as the claim has it fails: the source ["1"] appears after ["Web"]
    and its group is rendered first. *)
Lemma format_order_counterexample :
  firstAppearance (map source [result "Web" "a" 0.9; result "1" "b" 0.8])
  = ["Web"; "1"]%string
  /\ QueryOrchestrator.formatResults
       [result "Web" "a" 0.9; result "1" "b" 0.8] (Some 10%Z)
     = Normal (render 2 [("1"%string, [result "1" "b" 0.8]);
                         ("Web"%string, [result "Web" "a" 0.9])])
  /\ QueryOrchestrator.formatResults
       [result "Web" "a" 0.9; result "1" "b" 0.8] (Some 10%Z)
     <> Normal (render 2
                  (groupsOf
                     (firstn 10 [result "Web" "a" 0.9; result "1" "b" 0.8]))).
Proof.
  split; [reflexivity | split; [reflexivity | discriminate]].
Qed.

(** A source named like a property of [Object.prototype] makes the
    reducer of [groupBySource] call [push] on what is no array. *)
Example format_inherited_source :
  QueryOrchestrator.formatResults [result "constructor" "a" 0.9] None
  = Throw QueryOrchestrator.pushTypeError.
Proof. reflexivity. Qed.

(** C10. The fixed message is returned for the empty sequence and for no
    other; a non-empty sequence with limit 0 gets the header alone, with
    the length of the sequence and 0 sources; an omitted limit is 10. *)
Theorem format_no_results_iff_empty :
  (forall (results : list SearchResult) (maxResults : option Z),
      QueryOrchestrator.formatResults results maxResults
      = Normal QueryOrchestrator.noResults
      <-> results = [])
  /\ (forall (r : SearchResult) (rest : list SearchResult),
        QueryOrchestrator.formatResults (r :: rest) (Some 0%Z)
        = Normal (JS.template
                    [ "Found "; JS.toString (List.length (r :: rest));
                      " results across 0 sources:"; JS.LF; JS.LF ]%string))
  /\ (forall results : list SearchResult,
        QueryOrchestrator.formatResults results None
        = QueryOrchestrator.formatResults results (Some 10%Z)).
Proof.
  split; [| split].
  - intros results maxResults. split.
    + destruct results as [| r rest]; [reflexivity |].
      unfold QueryOrchestrator.formatResults. cbn [List.length Nat.eqb].
      destruct (QueryOrchestrator.groupBySource _) as [groups | e];
        cbn [bind]; [| discriminate].
      rewrite fold_formatGroup. simpl. discriminate.
    + intros ->. destruct maxResults; reflexivity.
  - intros r rest. unfold QueryOrchestrator.formatResults.
    cbn [List.length Nat.eqb]. reflexivity.
  - reflexivity.
Qed.

End Formatting.

(* ================================================================= *)
(** ** More on the ranked sequence *)

Section Ranked.

Lemma keepFirst_length (seen : list string) (l : list SearchResult) :
  List.length (keepFirst seen l) <= List.length l.
Proof.
  revert seen. induction l as [| r rest IH]; intros seen; simpl.
  - lia.
  - destruct (QueryOrchestrator.has seen (QueryOrchestrator.key r)); simpl.
    + specialize (IH seen). lia.
    + specialize (IH (QueryOrchestrator.key r :: seen)). lia.
Qed.

Lemma keepFirst_distinct (seen : list string) (l : list SearchResult) :
  NoDup (map QueryOrchestrator.key l) ->
  (forall r, In r l -> ~ In (QueryOrchestrator.key r) seen) ->
  keepFirst seen l = l.
Proof.
  revert seen. induction l as [| x rest IH]; intros seen Hnodup Hfresh.
  - reflexivity.
  - simpl in *. inversion Hnodup as [| ? ? Hx Hrest]; subst.
    assert (Hseen : QueryOrchestrator.has seen (QueryOrchestrator.key x)
                    = false).
    { apply not_true_iff_false. rewrite has_In. apply Hfresh. left.
      reflexivity. }
    rewrite Hseen. f_equal. apply IH; [exact Hrest |].
    intros r Hr [Hkey | Hin].
    + apply Hx. rewrite Hkey. apply in_map. exact Hr.
    + apply (Hfresh r); [right; exact Hr | exact Hin].
Qed.

Lemma rank_of_sorted (l : list SearchResult) :
  StronglySorted precedes l -> rank l = l.
Proof.
  intros Hsorted. symmetry.
  apply stable_sort_is_rank; [exact Hsorted | reflexivity].
Qed.

(** X1. The ranked sequence is in descending order of score, holds no two
    results of one key, holds results of the pool only and is no longer
    than the pool. *)
Theorem ranked_descending_distinct_from_pool (pool : list SearchResult)
  (query : string) :
  StronglySorted precedes (QueryOrchestrator.rankResults pool query)
  /\ NoDup (map QueryOrchestrator.key
              (QueryOrchestrator.rankResults pool query))
  /\ (forall r, In r (QueryOrchestrator.rankResults pool query) -> In r pool)
  /\ List.length (QueryOrchestrator.rankResults pool query)
     <= List.length pool.
Proof.
  split; [apply rankResults_sorted |].
  split; [apply rankResults_one_per_key |].
  split; [intros r; apply rankResults_from_pool |].
  rewrite rankResults_keepFirst, (Permutation_length (rank_perm pool)).
  apply keepFirst_length.
Qed.

(** X2. Every result of the pool is in the ranked sequence through a result
    of its key that is scored at least as high. *)
Theorem ranked_keeps_best_of_each_key (pool : list SearchResult)
  (query : string) (r : SearchResult) :
  In r pool ->
  exists best,
    In best (QueryOrchestrator.rankResults pool query)
    /\ QueryOrchestrator.key best = QueryOrchestrator.key r
    /\ (relevanceScore r <= relevanceScore best)%Q.
Proof.
  intros Hin. rewrite rankResults_keepFirst.
  apply keepFirst_best.
  - apply rank_sorted.
  - apply (Permutation_in _ (rank_perm pool)). exact Hin.
  - intros [].
Qed.

Lemma ranked_keeps_best_of_each_key_witness :
  exists best,
    In best
      (QueryOrchestrator.rankResults
         [result "Docs" "Guide" 0.8; result "Docs" "Guide" 0.95] "guide")
    /\ QueryOrchestrator.key best
       = QueryOrchestrator.key (result "Docs" "Guide" 0.8)
    /\ (relevanceScore (result "Docs" "Guide" 0.8) <= relevanceScore best)%Q.
Proof.
  apply (@ranked_keeps_best_of_each_key
           [result "Docs" "Guide" 0.8; result "Docs" "Guide" 0.95] "guide"
           (result "Docs" "Guide" 0.8)).
  left. reflexivity.
Defined.

(** X3. Ranking a ranked sequence again changes nothing. *)
Theorem rankResults_idempotent (pool : list SearchResult)
  (query query' : string) :
  QueryOrchestrator.rankResults
    (QueryOrchestrator.rankResults pool query) query'
  = QueryOrchestrator.rankResults pool query.
Proof.
  rewrite (rankResults_keepFirst (QueryOrchestrator.rankResults pool query)).
  rewrite rank_of_sorted by apply rankResults_sorted.
  apply keepFirst_distinct.
  - apply rankResults_one_per_key.
  - intros r _ [].
Qed.

(** X4. A pool whose keys are all different is only sorted: no result is
    dropped. *)
Theorem rankResults_keeps_distinct_keys (pool : list SearchResult)
  (query : string) :
  NoDup (map QueryOrchestrator.key pool) ->
  QueryOrchestrator.rankResults pool query = rank pool
  /\ Permutation pool (QueryOrchestrator.rankResults pool query).
Proof.
  intros Hnodup.
  assert (Heq : QueryOrchestrator.rankResults pool query = rank pool).
  { rewrite rankResults_keepFirst. apply keepFirst_distinct.
    - apply (Permutation_NoDup
               (Permutation_map QueryOrchestrator.key (rank_perm pool))).
      exact Hnodup.
    - intros r _ []. }
  split; [exact Heq |]. rewrite Heq. apply rank_perm.
Qed.

Lemma rankResults_keeps_distinct_keys_witness :
  QueryOrchestrator.rankResults
    [result "Slack" "a" 0.5; result "Web" "a" 0.9; result "Web" "b" 0.7] "a"
  = rank [result "Slack" "a" 0.5; result "Web" "a" 0.9; result "Web" "b" 0.7]
  /\ Permutation
       [result "Slack" "a" 0.5; result "Web" "a" 0.9; result "Web" "b" 0.7]
       (QueryOrchestrator.rankResults
          [result "Slack" "a" 0.5; result "Web" "a" 0.9; result "Web" "b" 0.7]
          "a").
Proof.
  apply (@rankResults_keeps_distinct_keys
           [result "Slack" "a" 0.5; result "Web" "a" 0.9; result "Web" "b" 0.7]
           "a").
  repeat constructor; simpl; intros H;
    repeat (destruct H as [H | H]; [discriminate |]); exact H.
Defined.

(** X5. Where the sources hold no hyphen, two results have the same key
    exactly when they agree on title and source. *)
Theorem key_stands_for_pair (a b : SearchResult) :
  hyphenFree (source a) = true ->
  hyphenFree (source b) = true ->
  (QueryOrchestrator.key a = QueryOrchestrator.key b
   <-> title a = title b /\ source a = source b).
Proof.
  intros Ha Hb. split.
  - apply key_injective; assumption.
  - intros [Htitle Hsource]. rewrite !key_joined. congruence.
Qed.

Lemma key_stands_for_pair_witness :
  QueryOrchestrator.key (result "Google Docs" "API-Guide" 0.9)
  = QueryOrchestrator.key (result "Google Docs" "API-Guide" 0.4)
  <-> title (result "Google Docs" "API-Guide" 0.9)
      = title (result "Google Docs" "API-Guide" 0.4)
      /\ source (result "Google Docs" "API-Guide" 0.9)
         = source (result "Google Docs" "API-Guide" 0.4).
Proof.
  apply (@key_stands_for_pair (result "Google Docs" "API-Guide" 0.9)
           (result "Google Docs" "API-Guide" 0.4)); reflexivity.
Defined.

End Ranked.

(* ================================================================= *)
(** ** More on the executor *)

Section Progress.
Variable query : string.

(** X8. A [completed] event carries the name of a backend of the search set
    and the number of results that backend returned, before ranking and
    deduplication; the other events carry no count. *)
Theorem completed_event_counts_results (dataSources : list IDataSource)
  (schedule : list nat) (selected : list IDataSource)
  (p : SearchProgress.t) :
  QueryOrchestrator.sourcesToSearch dataSources query = Normal selected ->
  In p (snd (QueryOrchestrator.search dataSources (Some record) query
               schedule [])) ->
  match SearchProgress.status p with
  | SearchProgress.completed =>
      exists ds results,
        In ds selected /\ search ds query = Normal results
        /\ SearchProgress.source p = name ds
        /\ SearchProgress.resultCount p = Some (List.length results)
  | _ => SearchProgress.resultCount p = None
  end.
Proof.
  intros Hselected Hin.
  rewrite (search_log query dataSources schedule Hselected) in Hin.
  apply in_app_or in Hin. destruct Hin as [Hin | Hin].
  - apply in_map_iff in Hin. destruct Hin as [ds [<- _]]. reflexivity.
  - apply in_map_iff in Hin. destruct Hin as [ds [<- Hds]].
    apply (Permutation_in _ (settleOrder_perm schedule selected eq_refl))
      in Hds.
    unfold terminalEvent.
    destruct (search ds query) as [results | e] eqn:Hsearch; simpl.
    + exists ds, results. tauto.
    + reflexivity.
Qed.

End Progress.

Lemma completed_event_counts_results_witness :
  match
    SearchProgress.status
      {| SearchProgress.source := "B";
         SearchProgress.status := SearchProgress.completed;
         SearchProgress.resultCount := Some 1 |}
  with
  | SearchProgress.completed =>
      exists ds results,
        In ds [backend "A" (Normal true) (Throw "timeout");
               backend "B" (Normal true) (Normal [result "B" "Guide" 0.9])]
        /\ search ds "guide" = Normal results
        /\ "B"%string = name ds
        /\ Some 1 = Some (List.length results)
  | _ => Some 1 = None
  end.
Proof.
  apply (@completed_event_counts_results "guide"
           [backend "A" (Normal true) (Throw "timeout");
            backend "B" (Normal true) (Normal [result "B" "Guide" 0.9])]
           [1]
           [backend "A" (Normal true) (Throw "timeout");
            backend "B" (Normal true) (Normal [result "B" "Guide" 0.9])]
           {| SearchProgress.source := "B";
              SearchProgress.status := SearchProgress.completed;
              SearchProgress.resultCount := Some 1 |}).
  - reflexivity.
  - simpl. right. right. left. reflexivity.
Defined.

(* ================================================================= *)
(** ** More on the summary *)

Section Summary.

Lemma group_after_throw (l : list SearchResult) (e : string) :
  fold_left (fun acc r => acc <- acc ;; QueryOrchestrator.group acc r)
    l (Throw e)
  = Throw e.
Proof. induction l as [| r rest IH]; simpl; [reflexivity | exact IH]. Qed.

Lemma group_inherited (done : list SearchResult) (r : SearchResult) :
  Forall (fun x => JS.Obj.isInherited (source x) = false) done ->
  JS.Obj.isInherited (source r) = true ->
  QueryOrchestrator.group (groupsOf done) r
  = Throw QueryOrchestrator.pushTypeError.
Proof.
  intros Hdone Hr.
  assert (Hget : JS.Obj.get (groupsOf done) (source r) = JS.Obj.FromPrototype).
  { unfold JS.Obj.get. rewrite getOwn_absent, Hr; [reflexivity |].
    rewrite groupsOf_keys, firstAppearance_In, in_map_iff.
    intros [x [Hsource Hx]]. rewrite Forall_forall in Hdone.
    specialize (Hdone x Hx). congruence. }
  unfold QueryOrchestrator.group. rewrite Hget. simpl. rewrite Hget.
  reflexivity.
Qed.

Lemma groupBySource_inherited_from (done rest : list SearchResult) :
  Forall (fun x => JS.Obj.isInherited (source x) = false) done ->
  Exists (fun x => JS.Obj.isInherited (source x) = true) rest ->
  fold_left (fun acc r => acc <- acc ;; QueryOrchestrator.group acc r)
    rest (Normal (groupsOf done))
  = Throw QueryOrchestrator.pushTypeError.
Proof.
  revert done. induction rest as [| r rest IH]; intros done Hdone Hex.
  - inversion Hex.
  - simpl. destruct (JS.Obj.isInherited (source r)) eqn:Hr.
    + rewrite (@group_inherited done r Hdone Hr). apply group_after_throw.
    + rewrite (@group_snoc done r Hr). apply IH.
      * apply Forall_app. split; [exact Hdone | repeat constructor; exact Hr].
      * inversion Hex as [? ? Hhead | ? ? Htail]; subst;
          [congruence | exact Htail].
Qed.

Lemma groupBySource_inherited (l : list SearchResult) :
  Exists (fun x => JS.Obj.isInherited (source x) = true) l ->
  QueryOrchestrator.groupBySource l = Throw QueryOrchestrator.pushTypeError.
Proof.
  intros Hex.
  exact (@groupBySource_inherited_from [] l (Forall_nil _) Hex).
Qed.

Lemma ordinary_or_inherited (l : list SearchResult) :
  Forall (fun x => JS.Obj.isInherited (source x) = false) l
  \/ Exists (fun x => JS.Obj.isInherited (source x) = true) l.
Proof.
  induction l as [| r rest [IH | IH]].
  - left. constructor.
  - destruct (JS.Obj.isInherited (source r)) eqn:Hr.
    + right. left. exact Hr.
    + left. constructor; assumption.
  - right. right. exact IH.
Qed.

Lemma groupBySource_returns (l : list SearchResult)
  (o : JS.Obj.t (list SearchResult)) :
  QueryOrchestrator.groupBySource l = Normal o ->
  Forall (fun x => JS.Obj.isInherited (source x) = false) l
  /\ o = groupsOf l.
Proof.
  intros Hreturns. destruct (ordinary_or_inherited l) as [Hordinary | Hex].
  - rewrite (@groupBySource_groupsOf l Hordinary) in Hreturns.
    split; [exact Hordinary | congruence].
  - rewrite (groupBySource_inherited Hex) in Hreturns. discriminate.
Qed.

(** X10. The only exception of [formatResults] is the [TypeError] of [push],
    and it is raised exactly when, the sequence not being empty, a
    result of the truncated part has a source named like a property of
    [Object.prototype]. *)
Theorem format_throws_iff_inherited_source (results : list SearchResult)
  (maxResults : option Z) (e : string) :
  QueryOrchestrator.formatResults results maxResults = Throw e
  <-> results <> []
      /\ e = QueryOrchestrator.pushTypeError
      /\ Exists (fun x => JS.Obj.isInherited (source x) = true)
           (JS.slice0 results
              (match maxResults with Some n => n | None => 10%Z end)).
Proof.
  unfold QueryOrchestrator.formatResults.
  destruct results as [| r rest]; cbn [List.length Nat.eqb].
  - split; [discriminate | intros [H _]; contradiction].
  - set (top := JS.slice0 (r :: rest)
                  (match maxResults with Some n => n | None => 10%Z end)).
    destruct (ordinary_or_inherited top) as [Hordinary | Hex].
    + rewrite (@groupBySource_groupsOf top Hordinary). cbn [bind].
      split; [discriminate |]. intros [_ [_ Hex]]. exfalso.
      rewrite Forall_forall in Hordinary. apply Exists_exists in Hex.
      destruct Hex as [x [Hx Hinh]]. specialize (Hordinary x Hx). congruence.
    + rewrite (groupBySource_inherited Hex).
      cbn [bind]. split.
      * intros Heq. injection Heq as <-.
        split; [discriminate | split; [reflexivity | exact Hex]].
      * intros [_ [-> _]]. reflexivity.
Qed.

Lemma slice0_clamped (A : Type) (l : list A) (limit : Z) :
  JS.slice0 l
    (if (limit <? 0)%Z then Z.max 0 (Z.of_nat (List.length l) + limit)
     else Z.min limit (Z.of_nat (List.length l)))
  = JS.slice0 l limit.
Proof.
  unfold JS.slice0.
  destruct (Z.ltb_spec limit 0).
  - destruct (Z.ltb_spec (Z.max 0 (Z.of_nat (List.length l) + limit)) 0);
      [lia |].
    f_equal. lia.
  - destruct (Z.ltb_spec (Z.min limit (Z.of_nat (List.length l))) 0);
      [lia |].
    f_equal. lia.
Qed.

(** X11. The limit acts through its clamped value alone: a limit beyond the
    length of the sequence is as good as the length, and a negative limit
    [-k] is as good as the length less [k], the last [k] results being
    the ones left out. *)
Theorem format_limit_clamped (results : list SearchResult) (limit : Z) :
  QueryOrchestrator.formatResults results (Some limit)
  = QueryOrchestrator.formatResults results
      (Some (if (limit <? 0)%Z
             then Z.max 0 (Z.of_nat (List.length results) + limit)
             else Z.min limit (Z.of_nat (List.length results)))).
Proof.
  unfold QueryOrchestrator.formatResults.
  rewrite slice0_clamped. reflexivity.
Qed.

Lemma set_concat (o : JS.Obj.t (list SearchResult)) (k : string)
  (items : list SearchResult) (r : SearchResult) :
  JS.Obj.getOwn o k = Some items ->
  Permutation
    (List.concat (map snd (JS.Obj.set o k (items ++ [r]))))
    (r :: List.concat (map snd o)).
Proof.
  induction o as [| [k' v'] rest IH]; simpl; [discriminate |].
  destruct (String.eqb_spec k' k) as [-> | Hneq].
  - intros Heq. injection Heq as ->. simpl.
    rewrite <- app_assoc. simpl. symmetry. apply Permutation_middle.
  - intros Hrest. simpl. rewrite (IH Hrest). symmetry.
    apply Permutation_middle.
Qed.

Lemma groupsOf_concat (l : list SearchResult) :
  Permutation (List.concat (map snd (groupsOf l))) l.
Proof.
  induction l as [| r done IH] using rev_ind; [constructor |].
  destruct (in_dec string_dec (source r) (map source done)) as [Hold | Hnew].
  - rewrite (@groupsOf_snoc_old done r Hold), set_concat.
    + rewrite IH. apply Permutation_cons_append.
    + rewrite groupsOf_table. apply getOwn_table.
      apply firstAppearance_In. exact Hold.
  - rewrite (@groupsOf_snoc_new done r Hnew), map_app, List.concat_app.
    simpl. apply Permutation_app; [exact IH | reflexivity].
Qed.

(** X12. When [groupBySource] returns, its groups have distinct sources; each
    group is not empty and holds the results of its source, in the order
    of the input; and the groups together hold every result of the input
    once. *)
Theorem groupBySource_partition (l : list SearchResult)
  (o : JS.Obj.t (list SearchResult)) :
  QueryOrchestrator.groupBySource l = Normal o ->
  NoDup (map fst o)
  /\ (forall k items,
        In (k, items) o -> items <> [] /\ items = List.filter (from k) l)
  /\ Permutation (List.concat (map snd o)) l.
Proof.
  intros Hreturns. apply groupBySource_returns in Hreturns.
  destruct Hreturns as [_ ->]. split; [| split].
  - rewrite groupsOf_keys. apply firstAppearance_NoDup.
  - intros k items Hin. unfold groupsOf in Hin. apply in_map_iff in Hin.
    destruct Hin as [s [Heq Hs]]. injection Heq as <- <-.
    split; [| reflexivity].
    apply firstAppearance_In, in_map_iff in Hs. destruct Hs as [x [Hx Hin]].
    intros Hempty.
    assert (Hmember : In x (List.filter (from s) l)).
    { apply List.filter_In. split; [exact Hin |].
      unfold from. rewrite Hx. apply String.eqb_refl. }
    rewrite Hempty in Hmember. contradiction.
  - apply groupsOf_concat.
Qed.

End Summary.

Lemma groupBySource_partition_witness :
  NoDup (map fst [("Web"%string, [result "Web" "a" 0.9; result "Web" "c" 0.7]);
                  ("Slack"%string, [result "Slack" "b" 0.8])])
  /\ (forall k items,
        In (k, items)
          [("Web"%string, [result "Web" "a" 0.9; result "Web" "c" 0.7]);
           ("Slack"%string, [result "Slack" "b" 0.8])] ->
        items <> []
        /\ items
           = List.filter (from k)
               [result "Web" "a" 0.9; result "Slack" "b" 0.8;
                result "Web" "c" 0.7])
  /\ Permutation
       (List.concat
          (map snd
             [("Web"%string, [result "Web" "a" 0.9; result "Web" "c" 0.7]);
              ("Slack"%string, [result "Slack" "b" 0.8])]))
       [result "Web" "a" 0.9; result "Slack" "b" 0.8; result "Web" "c" 0.7].
Proof.
  apply (@groupBySource_partition
           [result "Web" "a" 0.9; result "Slack" "b" 0.8; result "Web" "c" 0.7]
           [("Web"%string, [result "Web" "a" 0.9; result "Web" "c" 0.7]);
            ("Slack"%string, [result "Slack" "b" 0.8])]).
  reflexivity.
Defined.

(* ================================================================= *)
(** ** The backends of the repository under the orchestrator *)

Section Repository.
Variable toLowerCase : string -> string.

Lemma prefix_app (kw s : string) :
  String.prefix kw s = true <-> exists post, s = (kw ++ post)%string.
Proof.
  revert s. induction kw as [| c kw IH]; intros s.
  - destruct s; simpl; (split; [intros _; eexists; reflexivity | reflexivity]).
  - destruct s as [| d s]; simpl.
    + split; [discriminate | intros [post Hpost]; discriminate].
    + destruct (ascii_dec c d) as [-> | Hneq].
      * rewrite IH. split; intros [post Hpost]; exists post; congruence.
      * split; [discriminate | intros [post Hpost]; congruence].
Qed.

Lemma includes_occurs (s kw : string) :
  Backends.includes s kw = true
  <-> exists pre post, s = (pre ++ kw ++ post)%string.
Proof.
  induction s as [| c s IH].
  - cbn [Backends.includes]. rewrite orb_false_r, prefix_app. split.
    + intros [post Hpost]. exists EmptyString, post. exact Hpost.
    + intros [pre [post Hs]]. destruct pre; [| discriminate].
      exists post. exact Hs.
  - cbn [Backends.includes]. rewrite orb_true_iff, prefix_app, IH. split.
    + intros [[post Hpost] | [pre [post Hs]]].
      * exists EmptyString, post. exact Hpost.
      * exists (String c pre), post. simpl. congruence.
    + intros [[| d pre] [post Hs]].
      * left. exists post. exact Hs.
      * right. exists pre, post. simpl in Hs. congruence.
Qed.

(** A string that holds a keyword holds every part of the keyword. *)
Lemma includes_part (s a kw b : string) :
  Backends.includes s (a ++ kw ++ b) = true ->
  Backends.includes s kw = true.
Proof.
  rewrite !includes_occurs. intros [pre [post Hs]].
  exists (pre ++ a)%string, (b ++ post)%string.
  rewrite Hs, !append_assoc. reflexivity.
Qed.

(** X14. Of the keywords of Google Docs, [document] and [documentation]
    decide nothing: the backend is relevant exactly when the lower-cased
    query holds one of [doc], [guide], [spec], [design] and [google]. *)
Theorem googleDocs_relevance_keywords
  (found : string -> Completion (list SearchResult)) (query : string) :
  isRelevantFor (Backends.GoogleDocsDataSource toLowerCase found) query
  = Normal (Backends.mentions toLowerCase
              [ "doc"; "guide"; "spec"; "design"; "google" ]%string query).
Proof.
  simpl. unfold Backends.mentions. simpl. f_equal.
  pose proof (@includes_part (toLowerCase query) "" "doc" "ument") as H1.
  pose proof (@includes_part (toLowerCase query) "" "doc" "umentation") as H2.
  simpl in H1, H2.
  destruct (Backends.includes (toLowerCase query) "document");
    destruct (Backends.includes (toLowerCase query) "documentation");
    destruct (Backends.includes (toLowerCase query) "doc");
    try reflexivity;
    try (specialize (H1 eq_refl); discriminate);
    try (specialize (H2 eq_refl); discriminate).
Qed.

(** X15. Of the keywords of the database, [datadog] and [database] decide
    nothing, both holding [data]. *)
Theorem database_relevance_keywords
  (body : string -> Completion (list SearchResult)) (query : string) :
  isRelevantFor (Backends.DatabaseDataSource toLowerCase body) query
  = Normal (Backends.mentions toLowerCase
              [ "users"; "data"; "count"; "how many"; "metrics";
                "analytics" ]%string query).
Proof.
  simpl. unfold Backends.mentions. simpl. f_equal.
  pose proof (@includes_part (toLowerCase query) "" "data" "dog") as H1.
  pose proof (@includes_part (toLowerCase query) "" "data" "base") as H2.
  simpl in H1, H2.
  destruct (Backends.includes (toLowerCase query) "datadog");
    destruct (Backends.includes (toLowerCase query) "database");
    destruct (Backends.includes (toLowerCase query) "data");
    try (specialize (H1 eq_refl); discriminate);
    try (specialize (H2 eq_refl); discriminate);
    rewrite ?orb_true_r, ?orb_false_r; reflexivity.
Qed.

Lemma ofRepository_answers (query : string) (ds : IDataSource) :
  ofRepository toLowerCase ds -> answers query ds.
Proof.
  intros [body | found | body | body]; eexists; reflexivity.
Qed.





(** X13. The web backend claims every query.  Registered among backends whose
    relevance checks answer, it is in every search set, and the search
    set is always the backends that claim the query, never the fallback
    to all. *)
Theorem web_always_searched
  (dataSources : list IDataSource) (query : string)
  (body : string -> Completion (list SearchResult)) :
  Forall (answers query) dataSources ->
  In (Backends.WebSearchDataSource body) dataSources ->
  QueryOrchestrator.sourcesToSearch dataSources query
  = Normal (List.filter (claimsRelevance query) dataSources)
  /\ In (Backends.WebSearchDataSource body)
       (List.filter (claimsRelevance query) dataSources).
Proof.
  intros Hanswers Hweb.
  assert (Hin : In (Backends.WebSearchDataSource body)
                  (List.filter (claimsRelevance query) dataSources)).
  { apply List.filter_In. split; [exact Hweb | reflexivity]. }
  split; [| exact Hin].
  unfold QueryOrchestrator.sourcesToSearch, QueryOrchestrator.relevantSources.
  rewrite (filter_answers Hanswers). simpl.
  destruct (List.filter (claimsRelevance query) dataSources);
    [contradiction | reflexivity].
Qed.

End Repository.


Lemma web_always_searched_witness :
  QueryOrchestrator.sourcesToSearch
    [Backends.SlackDataSource lowerLatin (fun _ => Normal []);
     Backends.WebSearchDataSource (fun _ => Normal [])] "weather"
  = Normal
      (List.filter (claimsRelevance "weather")
         [Backends.SlackDataSource lowerLatin (fun _ => Normal []);
          Backends.WebSearchDataSource (fun _ => Normal [])])
  /\ In (Backends.WebSearchDataSource (fun _ => Normal []))
       (List.filter (claimsRelevance "weather")
          [Backends.SlackDataSource lowerLatin (fun _ => Normal []);
           Backends.WebSearchDataSource (fun _ => Normal [])]).
Proof.
  apply (@web_always_searched
           [Backends.SlackDataSource lowerLatin (fun _ => Normal []);
            Backends.WebSearchDataSource (fun _ => Normal [])]
           "weather" (fun _ => Normal [])).
  - repeat constructor; eexists; reflexivity.
  - right. left. reflexivity.
Defined.

(** The searches of the witnesses above, run. *)
Example repository_run :
  QueryOrchestrator.search
    [Backends.SlackDataSource lowerLatin (fun _ => Throw "rate limit");
     Backends.WebSearchDataSource
       (fun _ => Normal [result "Web" "Guide" 0.9])]
    (Some record) "Team chat" [] []
  = (Normal [result "Web" "Guide" 0.9],
     [ {| SearchProgress.source := "Slack";
          SearchProgress.status := SearchProgress.searching;
          SearchProgress.resultCount := None |};
       {| SearchProgress.source := "Web";
          SearchProgress.status := SearchProgress.searching;
          SearchProgress.resultCount := None |};
       {| SearchProgress.source := "Slack";
          SearchProgress.status := SearchProgress.completed;
          SearchProgress.resultCount := Some 0 |};
       {| SearchProgress.source := "Web";
          SearchProgress.status := SearchProgress.completed;
          SearchProgress.resultCount := Some 1 |} ]).
Proof. reflexivity. Qed.

(* ================================================================= *)
(** ** The snippet of a Google document *)

Section Snippet.
Variable toLowerCase : string -> string.

Lemma length_append (a b : string) :
  String.length (a ++ b) = String.length a + String.length b.
Proof. induction a as [| c a IH]; simpl; congruence. Qed.

Lemma length_substring (n m : nat) (s : string) :
  String.length (String.substring n m s) <= m.
Proof.
  revert n m. induction s as [| c s IH]; intros n m.
  - destruct n, m; simpl; lia.
  - destruct n as [| n].
    + destruct m as [| m]; simpl; [lia |]. specialize (IH 0 m). lia.
    + simpl. apply IH.
Qed.

Lemma length_substring_between (s : string) (start end_ : Q) :
  String.length (Backends.substring s start end_)
  <= Nat.max (Backends.position start (String.length s))
       (Backends.position end_ (String.length s))
     - Nat.min (Backends.position start (String.length s))
         (Backends.position end_ (String.length s)).
Proof. unfold Backends.substring. apply length_substring. Qed.

Lemma truncate_nonnegative (q : Q) :
  (0 <= q)%Q -> Backends.truncate q = Qfloor q /\ (0 <= Qfloor q)%Z.
Proof.
  intros Hq. unfold Backends.truncate.
  apply Qle_bool_iff in Hq. rewrite Hq. split; [reflexivity |].
  apply Qle_bool_iff in Hq. apply (Qfloor_resp_le 0 q) in Hq. exact Hq.
Qed.

(** Where [y] lies at most a whole number [n] above [x], so does its
    floor above the floor of [x]. *)
Lemma floor_within (x y : Q) (n : Z) :
  (y <= x + inject_Z n)%Q -> (Qfloor y <= Qfloor x + n)%Z.
Proof.
  intros Hle.
  pose proof (Qfloor_le y) as Hy. pose proof (Qlt_floor x) as Hx.
  assert (Hlt : (inject_Z (Qfloor y) < inject_Z (Qfloor x + 1 + n))%Q).
  { rewrite inject_Z_plus. lra. }
  rewrite <- Zlt_Qlt in Hlt. lia.
Qed.

(** X18. The snippet is at most as long as the query and the context together,
    and the two ellipses. *)
Theorem getSnippet_bounded (text query : string) (contextLength : option Z) :
  (0 <= match contextLength with Some n => n | None => 100 end)%Z ->
  String.length (Backends.getSnippet toLowerCase text query contextLength)
  <= String.length query
     + Z.to_nat (match contextLength with Some n => n | None => 100%Z end)
     + 6.
Proof.
  unfold Backends.getSnippet.
  set (c := match contextLength with Some n => n | None => 100%Z end).
  intros Hc.
  destruct (Backends.indexOf (toLowerCase text) (toLowerCase query))
    as [index |].
  - rewrite !length_append. cbn [String.length].
    pose proof (length_substring_between text
      (Backends.max 0
         (inject_Z (Z.of_nat index) - inject_Z c / 2))
      (Backends.min (inject_Z (Z.of_nat (String.length text)))
         (inject_Z (Z.of_nat index)
          + inject_Z (Z.of_nat (String.length query))
          + inject_Z c / 2))) as Hlen.
    set (start := Backends.max 0
                    (inject_Z (Z.of_nat index) - inject_Z c / 2)) in *.
    set (end_ := Backends.min (inject_Z (Z.of_nat (String.length text)))
                   (inject_Z (Z.of_nat index)
                    + inject_Z (Z.of_nat (String.length query))
                    + inject_Z c / 2)) in *.
    assert (Hi : (0 <= inject_Z (Z.of_nat index))%Q)
      by (rewrite <- (Zle_Qle 0); lia).
    assert (Hq : (0 <= inject_Z (Z.of_nat (String.length query)))%Q)
      by (rewrite <- (Zle_Qle 0); lia).
    assert (Ht : (0 <= inject_Z (Z.of_nat (String.length text)))%Q)
      by (rewrite <- (Zle_Qle 0); lia).
    assert (Hc' : (0 <= inject_Z c)%Q) by (rewrite <- (Zle_Qle 0); exact Hc).
    assert (Hhalf : (0 <= inject_Z c / 2)%Q)
      by (apply Qle_shift_div_l; [reflexivity | lra]).
    assert (Hhalves : (inject_Z c / 2 + inject_Z c / 2 == inject_Z c)%Q)
      by field.
    assert (Hstart : (0 <= start)%Q
                     /\ (inject_Z (Z.of_nat index) - inject_Z c / 2
                         <= start)%Q
                     /\ (start == 0
                         \/ start == inject_Z (Z.of_nat index)
                                     - inject_Z c / 2)%Q).
    { unfold start, Backends.max.
      destruct (Qle_bool 0 (inject_Z (Z.of_nat index) - inject_Z c / 2))
        eqn:Hcmp.
      - apply Qle_bool_iff in Hcmp.
        split; [exact Hcmp | split; [lra | right; reflexivity]].
      - apply not_true_iff_false in Hcmp. rewrite Qle_bool_iff in Hcmp.
        split; [lra | split; [lra | left; reflexivity]]. }
    assert (Hend : (0 <= end_)%Q
                   /\ (end_ <= inject_Z (Z.of_nat index)
                               + inject_Z (Z.of_nat (String.length query))
                               + inject_Z c / 2)%Q
                   /\ (end_ = inject_Z (Z.of_nat (String.length text))
                       \/ end_ == inject_Z (Z.of_nat index)
                                  + inject_Z (Z.of_nat (String.length query))
                                  + inject_Z c / 2)%Q).
    { unfold end_, Backends.min.
      destruct (Qle_bool (inject_Z (Z.of_nat (String.length text)))
                  (inject_Z (Z.of_nat index)
                   + inject_Z (Z.of_nat (String.length query))
                   + inject_Z c / 2)) eqn:Hcmp.
      - apply Qle_bool_iff in Hcmp.
        split; [exact Ht | split; [exact Hcmp | left; reflexivity]].
      - apply not_true_iff_false in Hcmp. rewrite Qle_bool_iff in Hcmp.
        split; [lra | split; [lra | right; reflexivity]]. }
    destruct Hstart as [Hstart0 [Hstart1 Hstart2]].
    destruct Hend as [Hend0 [Hend1 Hend2]].
    destruct (truncate_nonnegative Hstart0) as [Hts Hfs].
    destruct (truncate_nonnegative Hend0) as [Hte Hfe].
    assert (Hwithin :
              (Qfloor end_
               <= Qfloor start + (Z.of_nat (String.length query) + c))%Z).
    { apply floor_within. rewrite inject_Z_plus. lra. }
    assert (Horder : (Qfloor start <= Qfloor end_)%Z
                     \/ Qfloor end_ = Z.of_nat (String.length text)).
    { destruct Hend2 as [Hend2 | Hend2].
      - right. rewrite Hend2. apply Qfloor_Z.
      - left. apply Qfloor_resp_le.
        destruct Hstart2 as [Hstart2 | Hstart2]; lra. }
    unfold Backends.position in Hlen. rewrite Hts, Hte in Hlen.
    lia.
  - rewrite length_append. cbn [String.length].
    pose proof (length_substring_between text 0 (inject_Z c)) as Hlen.
    assert (Hc' : (0 <= inject_Z c)%Q) by (rewrite <- (Zle_Qle 0); exact Hc).
    destruct (truncate_nonnegative Hc') as [Htc _].
    assert (Hzero : Backends.truncate 0 = 0%Z) by reflexivity.
    unfold Backends.position in Hlen.
    rewrite Htc, Hzero, Qfloor_Z in Hlen.
    lia.
Qed.

End Snippet.

Lemma getSnippet_bounded_witness :
  String.length
    (Backends.getSnippet lowerLatin
       "Release notes: the Orchestrator fans a query out to every backend."
       "orchestrator" None)
  <= String.length "orchestrator" + Z.to_nat 100 + 6.
Proof.
  apply (@getSnippet_bounded lowerLatin
           "Release notes: the Orchestrator fans a query out to every backend."
           "orchestrator" None).
  lia.
Defined.

(** Snippets, run: the query found, with a context of 10, and not found. *)
Example getSnippet_found :
  Backends.getSnippet lowerLatin
    "Release notes: the Orchestrator fans a query out to every backend."
    "orchestrator" (Some 10%Z)
  = "... the Orchestrator fans..."%string.
Proof. reflexivity. Qed.

Example getSnippet_not_found :
  Backends.getSnippet lowerLatin
    "Release notes: the Orchestrator fans a query out to every backend."
    "ranking" (Some 10%Z)
  = "Release no..."%string.
Proof. reflexivity. Qed.

(* ================================================================= *)
(** ** The order of the ranked sequence *)

Section Stability.

Lemma subsequence_refl (A : Type) (l : list A) : subsequence l l.
Proof. induction l; constructor; assumption. Qed.

Lemma subsequence_filter (A : Type) (f : A -> bool) (l1 l2 : list A) :
  subsequence l1 l2 -> subsequence (List.filter f l1) (List.filter f l2).
Proof.
  induction 1 as [| x l1 l2 _ IH | x l1 l2 _ IH]; simpl.
  - constructor.
  - destruct (f x); [constructor |]; exact IH.
  - destruct (f x); [constructor |]; exact IH.
Qed.

Lemma keepFirst_subsequence (seen : list string) (l : list SearchResult) :
  subsequence (keepFirst seen l) l.
Proof.
  revert seen. induction l as [| r rest IH]; intros seen; simpl.
  - constructor.
  - destruct (QueryOrchestrator.has seen (QueryOrchestrator.key r));
      constructor; apply IH.
Qed.

(** C3. What [rankResults] returns for a pool is in descending order of
    score, and its results of any one score stand in the order they have
    in the pool.  It is the pool sorted by descending score, the results
    of one score left in the order of the pool, and walked by the
    deduplication, which lets the first result of every key through. *)
Theorem ranking_is_stable (pool : list SearchResult) (query : string) :
  StronglySorted precedes (QueryOrchestrator.rankResults pool query)
  /\ (forall s : Q,
        subsequence
          (List.filter (scored s) (QueryOrchestrator.rankResults pool query))
          (List.filter (scored s) pool))
  /\ (exists sorted,
        Permutation pool sorted
        /\ StronglySorted precedes sorted
        /\ (forall s : Q,
              List.filter (scored s) sorted = List.filter (scored s) pool)
        /\ QueryOrchestrator.rankResults pool query = keepFirst [] sorted).
Proof.
  split; [apply rankResults_sorted |]. split.
  - intros s. rewrite rankResults_keepFirst, <- (rank_stable s pool).
    apply subsequence_filter, keepFirst_subsequence.
  - exists (rank pool).
    split; [apply rank_perm |]. split; [apply rank_sorted |].
    split; [intros s; apply rank_stable |].
    apply rankResults_keepFirst.
Qed.

(** The ranking example of the specification, through [rankResults]. *)
Example ranking_example_ranked :
  QueryOrchestrator.rankResults
    [result "S" "r1" 0.9; result "S" "r2" 0.5;
     result "S" "r3" 0.9; result "S" "r4" 0.2] "r"
  = [result "S" "r1" 0.9; result "S" "r3" 0.9;
     result "S" "r2" 0.5; result "S" "r4" 0.2].
Proof. reflexivity. Qed.

End Stability.

(* ================================================================= *)
(** ** The executor, with callbacks and calls that may throw *)

Section Fallible.
Variable query : string.
Variable direct : IDataSource -> bool.

Lemma told_app (W : Type) (onProgress : option (Promises.Sink W))
  (l1 l2 : list SearchProgress.t) (w : W) :
  told onProgress (l1 ++ l2) w = told onProgress l2 (told onProgress l1 w).
Proof. unfold told. apply fold_left_app. Qed.

Lemma told_recording (l log : list SearchProgress.t) :
  told (Some recording) l log = log ++ l.
Proof.
  revert log. induction l as [| p rest IH]; intros log; simpl.
  - rewrite app_nil_r. reflexivity.
  - unfold told in *. simpl. rewrite IH. unfold record.
    rewrite <- app_assoc. reflexivity.
Qed.

Lemma returns_recording : returns (Some recording).
Proof. intros callback Heq p w. injection Heq as <-. reflexivity. Qed.

Lemma returns_none (W : Type) : returns (@None (Promises.Sink W)).
Proof. intros callback Heq. discriminate. Qed.

Section Returning.
Variable W : Type.
Variable onProgress : option (Promises.Sink W).
Hypothesis Hreturns : returns onProgress.

Lemma notify_returns (p : SearchProgress.t) (w : W) :
  Promises.notify onProgress p w = (Normal tt, told onProgress [p] w).
Proof.
  unfold told. simpl. unfold Promises.notify.
  destruct onProgress as [callback |] eqn:Hsink; [| reflexivity].
  specialize (Hreturns eq_refl p w).
  destruct (callback p w) as [c w']. simpl in *. subst. reflexivity.
Qed.

Lemma caught_returns (ds : IDataSource) (w : W) :
  Promises.caught onProgress ds w
  = (Normal [],
     told onProgress
       [{| SearchProgress.source := name ds;
           SearchProgress.status := SearchProgress.error;
           SearchProgress.resultCount := None |}] w).
Proof. unfold Promises.caught. rewrite notify_returns. reflexivity. Qed.

Lemma start_returns (ds : IDataSource) (w : W) :
  Promises.start onProgress direct query ds w
  = (promiseAfterStart direct query ds, true,
     told onProgress (startEvents direct query ds) w).
Proof.
  unfold Promises.start, promiseAfterStart, startEvents, failsInCall,
    succeeds, terminalEvent, searchingEvent.
  rewrite notify_returns.
  destruct (search ds query) as [results | e]; simpl.
  - rewrite andb_false_r. reflexivity.
  - destruct (direct ds); simpl; [| reflexivity].
    rewrite caught_returns. reflexivity.
Qed.

Lemma resume_returns (ds : IDataSource) (w : W) :
  Promises.resume onProgress query ds w
  = (Normal (contribution query ds),
     told onProgress [terminalEvent query ds] w).
Proof.
  unfold Promises.resume, contribution, terminalEvent.
  destruct (search ds query) as [results | e].
  - rewrite notify_returns. reflexivity.
  - apply caught_returns.
Qed.

Lemma launch_returns (selected : list IDataSource)
  (slots : list (IDataSource * Promises.Promise)) (w : W)
  (called : list IDataSource) :
  fold_left (Promises.launch onProgress direct query) selected
    (slots, None, w, called)
  = (slots ++ map (fun ds => (ds, promiseAfterStart direct query ds)) selected,
     None,
     told onProgress (List.concat (map (startEvents direct query) selected)) w,
     called ++ selected).
Proof.
  revert slots w called.
  induction selected as [| ds rest IH]; intros slots w called.
  - simpl. rewrite !app_nil_r. reflexivity.
  - cbn [fold_left map List.concat]. unfold Promises.launch at 2.
    rewrite start_returns.
    assert (Hnone : match promiseAfterStart direct query ds with
                    | Promises.Settled c => Promises.firstRejection None c
                    | Promises.Pending => None
                    end = None).
    { unfold promiseAfterStart.
      destruct (failsInCall direct query ds); reflexivity. }
    rewrite Hnone, IH, told_app, <- !app_assoc. reflexivity.
Qed.

Lemma settle_returns (k : nat)
  (slots : list (IDataSource * Promises.Promise)) (w : W) :
  Forall (good query) slots ->
  k < List.length (List.filter Promises.isPending slots) ->
  exists ds slots',
    Promises.settle onProgress query k slots w
    = (slots', Some (Normal (contribution query ds)),
       told onProgress [terminalEvent query ds] w)
    /\ Forall (good query) slots'
    /\ Permutation
         (ds :: map fst (List.filter Promises.isPending slots'))
         (map fst (List.filter Promises.isPending slots))
    /\ map fst slots' = map fst slots.
Proof.
  intros Hgood. revert k.
  induction Hgood as [| [source promise] rest Hslot Hrest IH]; intros k Hk.
  - simpl in Hk. lia.
  - destruct promise as [| c0].
    + destruct k as [| k].
      * exists source,
          ((source, Promises.Settled (Normal (contribution query source)))
           :: rest).
        cbn [Promises.settle]. rewrite resume_returns.
        split; [reflexivity |]. split.
        { constructor; [right; reflexivity | exact Hrest]. }
        split; reflexivity.
      * simpl in Hk.
        destruct (IH k) as [ds [rest' [Heq [Hgood' [Hperm Hfst]]]]]; [lia |].
        exists ds, ((source, Promises.Pending) :: rest').
        cbn [Promises.settle]. rewrite Heq.
        split; [reflexivity |]. split.
        { constructor; [left; reflexivity | exact Hgood']. }
        split.
        { simpl. rewrite perm_swap. apply perm_skip. exact Hperm. }
        simpl. rewrite Hfst. reflexivity.
    + simpl in Hk.
      destruct (IH k Hk) as [ds [rest' [Heq [Hgood' [Hperm Hfst]]]]].
      exists ds, ((source, Promises.Settled c0) :: rest').
      cbn [Promises.settle]. rewrite Heq.
      split; [reflexivity |]. split.
      { constructor; [exact Hslot | exact Hgood']. }
      split; [exact Hperm |]. simpl. rewrite Hfst. reflexivity.
Qed.

Lemma settleAll_returns (fuel : nat) (schedule : list nat)
  (slots : list (IDataSource * Promises.Promise)) (w : W) :
  Forall (good query) slots ->
  List.length (List.filter Promises.isPending slots) <= fuel ->
  exists terminal slots',
    Promises.settleAll onProgress query fuel schedule slots None w
    = (slots', None, told onProgress terminal w)
    /\ Permutation terminal
         (map (terminalEvent query)
            (map fst (List.filter Promises.isPending slots)))
    /\ Forall (good query) slots'
    /\ List.filter Promises.isPending slots' = []
    /\ map fst slots' = map fst slots.
Proof.
  revert schedule slots w.
  induction fuel as [| fuel IH]; intros schedule slots w Hgood Hfuel.
  - exists [], slots. simpl.
    assert (Hnone : List.filter Promises.isPending slots = []).
    { apply List.length_zero_iff_nil. lia. }
    rewrite Hnone. repeat split; try reflexivity; try assumption.
  - cbn [Promises.settleAll].
    destruct (List.length (List.filter Promises.isPending slots))
      as [| n] eqn:Hcount.
    + exists [], slots.
      assert (Hnone : List.filter Promises.isPending slots = []).
      { apply List.length_zero_iff_nil. exact Hcount. }
      rewrite Hnone. repeat split; try reflexivity; try assumption.
    + assert (Hk : Nat.modulo (hd 0 schedule) (S n)
                   < List.length (List.filter Promises.isPending slots)).
      { rewrite Hcount. apply Nat.mod_upper_bound. lia. }
      destruct (settle_returns w Hgood Hk)
        as [ds [slots1 [Heq [Hgood1 [Hperm Hfst]]]]].
      rewrite Heq. cbn [Promises.firstRejection].
      assert (Hfuel1 : List.length (List.filter Promises.isPending slots1)
                       <= fuel).
      { apply Permutation_length in Hperm. simpl in Hperm.
        rewrite !List.length_map in Hperm. lia. }
      destruct (IH (tl schedule) slots1
                  (told onProgress [terminalEvent query ds] w) Hgood1 Hfuel1)
        as [terminal [slots2 [Heq2 [Hperm2 [Hgood2 [Hnone2 Hfst2]]]]]].
      exists (terminalEvent query ds :: terminal), slots2.
      rewrite Heq2. split.
      { change (terminalEvent query ds :: terminal)
          with ([terminalEvent query ds] ++ terminal).
        rewrite told_app. reflexivity. }
      split.
      { rewrite <- (Permutation_map (terminalEvent query) Hperm). simpl.
        apply perm_skip. exact Hperm2. }
      split; [exact Hgood2 |]. split; [exact Hnone2 |]. congruence.
Qed.

Lemma fulfilment_settled (slots : list (IDataSource * Promises.Promise)) :
  Forall (good query) slots ->
  List.filter Promises.isPending slots = [] ->
  map Promises.fulfilment slots = map (contribution query) (map fst slots).
Proof.
  induction 1 as [| [source promise] rest Hslot _ IH]; simpl;
    [reflexivity |].
  unfold Promises.isPending at 1. simpl.
  destruct promise as [| c]; [discriminate |].
  intros Hnone. rewrite (IH Hnone). f_equal.
  destruct Hslot as [Hslot | Hslot]; simpl in Hslot; [discriminate |].
  injection Hslot as ->. reflexivity.
Qed.

Lemma pending_after_start (selected : list IDataSource) :
  map fst
    (List.filter Promises.isPending
       (map (fun ds => (ds, promiseAfterStart direct query ds)) selected))
  = List.filter (fun ds => negb (failsInCall direct query ds)) selected.
Proof.
  induction selected as [| ds rest IH]; simpl; [reflexivity |].
  unfold Promises.isPending at 1, promiseAfterStart at 1. simpl.
  destruct (failsInCall direct query ds); simpl; [| f_equal]; exact IH.
Qed.

Lemma good_after_start (selected : list IDataSource) :
  Forall (good query) (map (fun ds => (ds, promiseAfterStart direct query ds)) selected).
Proof.
  induction selected as [| ds rest IH]; simpl; constructor; [| exact IH].
  unfold good, promiseAfterStart, failsInCall, succeeds, contribution.
  simpl. destruct (direct ds); simpl; [| left; reflexivity].
  destruct (search ds query); simpl; [left | right]; reflexivity.
Qed.

(** With a callback that returns, the run is that of the callbacks none
    of which is rejected. *)
Lemma search_returns (dataSources : list IDataSource)
  (schedule : list nat) (selected : list IDataSource) (w : W) :
  QueryOrchestrator.sourcesToSearch dataSources query = Normal selected ->
  exists terminal,
    Permutation terminal
      (map (terminalEvent query)
         (List.filter (fun ds => negb (failsInCall direct query ds))
            selected))
    /\ Promises.search dataSources onProgress direct query schedule w
       = {| Promises.outcome :=
              Normal (QueryOrchestrator.rankResults
                        (List.concat (map (contribution query) selected))
                        query);
            Promises.world :=
              told onProgress
                (List.concat (map (startEvents direct query) selected)
                 ++ terminal) w;
            Promises.searched := selected |}.
Proof.
  intros Hselected. unfold Promises.search. rewrite Hselected.
  rewrite launch_returns. cbn [app].
  pose proof (List.filter_length_le Promises.isPending
                (map (fun ds => (ds, promiseAfterStart direct query ds)) selected))
    as Hfuel.
  destruct (settleAll_returns schedule
              (told onProgress
                 (List.concat (map (startEvents direct query) selected)) w)
              (good_after_start selected) Hfuel)
    as [terminal [slots' [Heq [Hperm [Hgood [Hnone Hfst]]]]]].
  exists terminal. split.
  { rewrite <- pending_after_start. exact Hperm. }
  rewrite Heq.
  rewrite (fulfilment_settled Hgood Hnone), Hfst.
  assert (Hsources : map fst (map (fun ds => (ds, promiseAfterStart direct query ds))
                               selected) = selected).
  { rewrite map_map. simpl. apply map_id. }
  rewrite Hsources, told_app. reflexivity.
Qed.

End Returning.

End Fallible.

(* ================================================================= *)
(** ** Failures, of the backends and of the callback *)

Section Isolation.
Variable query : string.

Lemma startEvents_perm (direct : IDataSource -> bool)
  (selected : list IDataSource) :
  Permutation
    (List.concat (map (startEvents direct query) selected))
    (map searchingEvent selected
     ++ map (terminalEvent query)
          (List.filter (failsInCall direct query) selected)).
Proof.
  induction selected as [| ds rest IH]; simpl; [constructor |].
  apply perm_skip. destruct (failsInCall direct query ds); simpl.
  - rewrite IH. apply Permutation_middle.
  - exact IH.
Qed.

(** With the recording callback the log holds the [searching] event and
    the terminal event of every backend of the search set. *)
Lemma recorded_events (dataSources : list IDataSource)
  (direct : IDataSource -> bool) (schedule : list nat)
  (selected : list IDataSource) :
  QueryOrchestrator.sourcesToSearch dataSources query = Normal selected ->
  Permutation
    (Promises.world
       (Promises.search dataSources (Some recording) direct query schedule []))
    (map searchingEvent selected ++ map (terminalEvent query) selected).
Proof.
  intros Hselected.
  destruct (search_returns query direct returns_recording dataSources schedule []
              Hselected) as [terminal [Hperm Hrun]].
  rewrite Hrun. cbn [Promises.world]. rewrite told_recording. cbn [app].
  rewrite Hperm, startEvents_perm, <- app_assoc, <- map_app.
  apply Permutation_app_head, Permutation_map.
  apply (filter_partition_perm (failsInCall direct query) selected).
Qed.

Lemma events_perm (st : SearchProgress.Status) (n : string)
  (l l' : list SearchProgress.t) :
  Permutation l l' -> events st n l = events st n l'.
Proof. unfold events. apply filter_length_perm. Qed.

Lemma recorded_counts (ok : bool) (n : string)
  (dataSources : list IDataSource) (direct : IDataSource -> bool)
  (schedule : list nat) (selected : list IDataSource) :
  QueryOrchestrator.sourcesToSearch dataSources query = Normal selected ->
  events (if ok then SearchProgress.completed else SearchProgress.error) n
    (Promises.world
       (Promises.search dataSources (Some recording) direct query schedule []))
  = backends ok query n selected.
Proof.
  intros Hselected.
  rewrite (@events_perm _ n _ _ (@recorded_events dataSources direct schedule selected Hselected)).
  rewrite events_app, events_searching by (destruct ok; discriminate).
  apply (events_terminal query ok n selected).
Qed.

Lemma succeededPool_In (selected : list IDataSource) (r : SearchResult) :
  In r (succeededPool query selected)
  <-> exists ds results,
        In ds selected /\ search ds query = Normal results /\ In r results.
Proof.
  unfold succeededPool. rewrite pool_In. split.
  - intros [ds [results [Hin Hrest]]]. exists ds, results.
    apply List.filter_In in Hin. tauto.
  - intros [ds [results [Hin [Hsearch Hr]]]]. exists ds, results.
    split; [| tauto]. apply List.filter_In. split; [exact Hin |].
    unfold succeeds. rewrite Hsearch. reflexivity.
Qed.

(** C4, as the code has it.  Once the search set is chosen and with a
    progress callback that returns, or none: the call returns, with what
    [rankResults] makes of the results of the backends whose search
    succeeded, a failed backend adding nothing, however its search
    failed and in whatever order the searches settle; the callback is
    handed one [error] event per backend of the search set whose search
    failed and one [completed] event per backend whose search succeeded,
    under the name of the backend; every result of the returned sequence
    is a result of a backend whose search succeeded; and where no source
    holds a hyphen, every result of such a backend is in the sequence
    through a result of its title and source that is scored at least as
    high. *)
Theorem failure_isolation (dataSources : list IDataSource)
  (direct : IDataSource -> bool) (schedule : list nat)
  (selected : list IDataSource) :
  QueryOrchestrator.sourcesToSearch dataSources query = Normal selected ->
  (forall (W : Type) (onProgress : option (Promises.Sink W)) (w : W),
      returns onProgress ->
      Promises.outcome
        (Promises.search dataSources onProgress direct query schedule w)
      = Normal (QueryOrchestrator.rankResults
                  (succeededPool query selected) query))
  /\ (forall ds, In ds selected -> succeeds query ds = false ->
                 contribution query ds = [])
  /\ (forall n : string,
        events SearchProgress.error n
          (Promises.world
             (Promises.search dataSources (Some recording) direct query
                schedule []))
        = backends false query n selected
        /\ events SearchProgress.completed n
             (Promises.world
                (Promises.search dataSources (Some recording) direct query
                   schedule []))
           = backends true query n selected)
  /\ (forall r,
        In r (QueryOrchestrator.rankResults
                (succeededPool query selected) query) ->
        exists ds results,
          In ds selected /\ search ds query = Normal results
          /\ In r results)
  /\ (Forall (fun r => hyphenFree (source r) = true)
        (succeededPool query selected) ->
      forall ds results r,
        In ds selected -> search ds query = Normal results ->
        In r results ->
        exists best,
          In best (QueryOrchestrator.rankResults
                     (succeededPool query selected) query)
          /\ title best = title r /\ source best = source r
          /\ (relevanceScore r <= relevanceScore best)%Q).
Proof.
  intros Hselected. split; [| split; [| split; [| split]]].
  - intros W onProgress w Hreturns.
    destruct (search_returns query direct Hreturns dataSources schedule w
                Hselected) as [terminal [_ Hrun]].
    rewrite Hrun. cbn [Promises.outcome].
    rewrite pool_of_successes. reflexivity.
  - intros ds _ Hfailed. unfold succeeds in Hfailed. unfold contribution.
    destruct (search ds query); [discriminate | reflexivity].
  - intros n. split.
    + exact (@recorded_counts false n dataSources direct schedule selected Hselected).
    + exact (@recorded_counts true n dataSources direct schedule selected Hselected).
  - intros r Hr. apply rankResults_from_pool in Hr.
    apply succeededPool_In. exact Hr.
  - intros Hsources ds results r Hds Hsearch Hr.
    assert (Hpool : In r (succeededPool query selected)).
    { apply succeededPool_In. exists ds, results. tauto. }
    destruct (rankResults_keeps_best _ query _ Hpool)
      as [best [Hbest [Hkey Hscore]]].
    exists best. split; [exact Hbest |].
    rewrite Forall_forall in Hsources.
    destruct (@key_injective best r) as [Htitle Hsource].
    + apply Hsources. apply (rankResults_from_pool _ _ _ Hbest).
    + apply Hsources, Hpool.
    + exact Hkey.
    + tauto.
Qed.

(** C5, as the code has it.  A relevance check that raises is not taken
    for "not relevant": the call ends with the exception of the first
    check that raises, in registration order; no [search] of a backend is
    called and the progress callback, whatever it is, is not invoked. *)
Theorem relevance_failure_aborts (W : Type)
  (onProgress : option (Promises.Sink W)) (direct : IDataSource -> bool)
  (before after : list IDataSource) (ds : IDataSource) (e : string)
  (schedule : list nat) (w : W) :
  Forall (answers query) before ->
  isRelevantFor ds query = Throw e ->
  Promises.search (before ++ ds :: after) onProgress direct query schedule w
  = {| Promises.outcome := Throw e;
       Promises.world := w;
       Promises.searched := [] |}.
Proof.
  intros Hbefore Hds.
  unfold Promises.search, QueryOrchestrator.sourcesToSearch,
    QueryOrchestrator.relevantSources.
  rewrite (filter_throws after ds Hbefore Hds). reflexivity.
Qed.

(** X6. With progress callbacks that return, or none, what a call
    returns depends neither on the callback nor on the order in which
    the searches settle nor on how a failing search fails. *)
Theorem search_result_independent_of_sink_and_schedule
  (dataSources : list IDataSource)
  (W W' : Type) (onProgress : option (Promises.Sink W))
  (onProgress' : option (Promises.Sink W'))
  (direct direct' : IDataSource -> bool)
  (schedule schedule' : list nat) (w : W) (w' : W') :
  returns onProgress ->
  returns onProgress' ->
  Promises.outcome
    (Promises.search dataSources onProgress direct query schedule w)
  = Promises.outcome
      (Promises.search dataSources onProgress' direct' query schedule' w').
Proof.
  intros Hreturns Hreturns'.
  destruct (QueryOrchestrator.sourcesToSearch dataSources query)
    as [selected | e] eqn:Hselected.
  - destruct (search_returns query direct Hreturns dataSources schedule w
                Hselected) as [terminal [_ Hrun]].
    destruct (search_returns query direct' Hreturns' dataSources schedule' w'
                Hselected) as [terminal' [_ Hrun']].
    rewrite Hrun, Hrun'. reflexivity.
  - unfold Promises.search. rewrite Hselected. reflexivity.
Qed.

(** X7. With the recording callback, the log is made of the events of
    the [map] step, backend by backend in registration order, followed by
    the terminal events of the searches that settle later, in the order
    they settle.  In the [map] step a backend has its [searching] event,
    directly followed by its [error] event when its [search] throws in
    the call itself.  The log holds two events per backend of the search
    set. *)
Theorem progress_log_shape (dataSources : list IDataSource)
  (direct : IDataSource -> bool) (schedule : list nat)
  (selected : list IDataSource) :
  QueryOrchestrator.sourcesToSearch dataSources query = Normal selected ->
  exists terminal,
    Promises.world
      (Promises.search dataSources (Some recording) direct query schedule [])
    = List.concat (map (startEvents direct query) selected) ++ terminal
    /\ Permutation terminal
         (map (terminalEvent query)
            (List.filter (fun ds => negb (failsInCall direct query ds))
               selected))
    /\ List.length
         (Promises.world
            (Promises.search dataSources (Some recording) direct query
               schedule []))
       = 2 * List.length selected.
Proof.
  intros Hselected.
  destruct (search_returns query direct returns_recording dataSources schedule []
              Hselected) as [terminal [Hperm Hrun]].
  exists terminal. split; [| split; [exact Hperm |]].
  - rewrite Hrun. cbn [Promises.world]. rewrite told_recording.
    reflexivity.
  - rewrite (Permutation_length (@recorded_events dataSources direct schedule selected Hselected)).
    rewrite List.length_app, !List.length_map. lia.
Qed.

(** X9. When the search of every backend of the search set fails, and the
    progress callback returns or is not given, the call still returns,
    with the empty sequence. *)
Theorem all_failed_returns_empty (dataSources : list IDataSource)
  (W : Type) (onProgress : option (Promises.Sink W))
  (direct : IDataSource -> bool)
  (schedule : list nat) (selected : list IDataSource) (w : W) :
  returns onProgress ->
  QueryOrchestrator.sourcesToSearch dataSources query = Normal selected ->
  Forall (fun ds => succeeds query ds = false) selected ->
  Promises.outcome
    (Promises.search dataSources onProgress direct query schedule w)
  = Normal [].
Proof.
  intros Hreturns Hselected Hfailed.
  destruct (search_returns query direct Hreturns dataSources schedule w Hselected)
    as [terminal [_ Hrun]].
  rewrite Hrun. cbn [Promises.outcome]. rewrite pool_of_successes.
  assert (Hnone : List.filter (succeeds query) selected = []).
  { clear Hselected Hrun.
    induction Hfailed as [| ds rest Hds _ IH]; simpl; [reflexivity |].
    rewrite Hds. exact IH. }
  rewrite Hnone. reflexivity.
Qed.

(** X16. With backends of the repository registered, whatever their
    searches settle with, and a progress callback that returns, or none,
    a call of [search] returns a sequence: no relevance check raises,
    and a search that fails is contained. *)
Theorem repository_backends_always_return
  (toLowerCase : string -> string)
  (dataSources : list IDataSource)
  (W : Type) (onProgress : option (Promises.Sink W))
  (direct : IDataSource -> bool) (schedule : list nat) (w : W) :
  Forall (ofRepository toLowerCase) dataSources ->
  returns onProgress ->
  exists ranked,
    Promises.outcome
      (Promises.search dataSources onProgress direct query schedule w)
    = Normal ranked.
Proof.
  intros Hrepo Hreturns.
  assert (Hanswers : Forall (answers query) dataSources).
  { eapply Forall_impl; [| exact Hrepo]. intros ds Hds. exact (ofRepository_answers query Hds). }
  destruct (search_returns query direct Hreturns dataSources schedule w
              (routing_selection_total Hanswers)) as [terminal [_ Hrun]].
  eexists. rewrite Hrun. reflexivity.
Qed.

End Isolation.

Lemma failure_isolation_witness :
  QueryOrchestrator.sourcesToSearch
    [backend "A" (Normal true) (Throw "timeout");
     backend "B" (Normal true) (Normal [result "B" "Guide" 0.9])] "guide"
  = Normal
      [backend "A" (Normal true) (Throw "timeout");
       backend "B" (Normal true) (Normal [result "B" "Guide" 0.9])]
  /\ returns (Some recording)
  /\ Promises.outcome
       (Promises.search
          [backend "A" (Normal true) (Throw "timeout");
           backend "B" (Normal true) (Normal [result "B" "Guide" 0.9])]
          (Some recording) (fun ds => String.eqb (name ds) "A") "guide"
          [1] [])
     = Normal
         (QueryOrchestrator.rankResults
            (succeededPool "guide"
               [backend "A" (Normal true) (Throw "timeout");
                backend "B" (Normal true) (Normal [result "B" "Guide" 0.9])])
            "guide").
Proof.
  split; [reflexivity | split; [exact returns_recording |]].
  destruct (@failure_isolation "guide"
              [backend "A" (Normal true) (Throw "timeout");
               backend "B" (Normal true) (Normal [result "B" "Guide" 0.9])]
              (fun ds => String.eqb (name ds) "A")
              [1]
              [backend "A" (Normal true) (Throw "timeout");
               backend "B" (Normal true) (Normal [result "B" "Guide" 0.9])]
              eq_refl) as [Houtcome _].
  apply Houtcome. exact returns_recording.
Defined.

(** The run of the isolation example with a failure that settles later,
    after the success of B, and with one thrown by the call of [search]
    itself. *)
Example isolation_run_settling :
  Promises.search
    [backend "A" (Normal true) (Throw "timeout");
     backend "B" (Normal true) (Normal [result "B" "Guide" 0.9])]
    (Some recording) (fun _ => false) "guide" [1] []
  = {| Promises.outcome := Normal [result "B" "Guide" 0.9];
       Promises.world :=
         [ {| SearchProgress.source := "A";
              SearchProgress.status := SearchProgress.searching;
              SearchProgress.resultCount := None |};
           {| SearchProgress.source := "B";
              SearchProgress.status := SearchProgress.searching;
              SearchProgress.resultCount := None |};
           {| SearchProgress.source := "B";
              SearchProgress.status := SearchProgress.completed;
              SearchProgress.resultCount := Some 1 |};
           {| SearchProgress.source := "A";
              SearchProgress.status := SearchProgress.error;
              SearchProgress.resultCount := None |} ];
       Promises.searched :=
         [backend "A" (Normal true) (Throw "timeout");
          backend "B" (Normal true) (Normal [result "B" "Guide" 0.9])] |}.
Proof. reflexivity. Qed.

Example isolation_run_direct :
  Promises.search
    [backend "A" (Normal true) (Throw "timeout");
     backend "B" (Normal true) (Normal [result "B" "Guide" 0.9])]
    (Some recording) (fun _ => true) "guide" [1] []
  = {| Promises.outcome := Normal [result "B" "Guide" 0.9];
       Promises.world :=
         [ {| SearchProgress.source := "A";
              SearchProgress.status := SearchProgress.searching;
              SearchProgress.resultCount := None |};
           {| SearchProgress.source := "A";
              SearchProgress.status := SearchProgress.error;
              SearchProgress.resultCount := None |};
           {| SearchProgress.source := "B";
              SearchProgress.status := SearchProgress.searching;
              SearchProgress.resultCount := None |};
           {| SearchProgress.source := "B";
              SearchProgress.status := SearchProgress.completed;
              SearchProgress.resultCount := Some 1 |} ];
       Promises.searched :=
         [backend "A" (Normal true) (Throw "timeout");
          backend "B" (Normal true) (Normal [result "B" "Guide" 0.9])] |}.
Proof. reflexivity. Qed.

(** C4 as the claim has it fails, twice.  The search of backend A fails
    and the progress callback throws when it is handed the [error] event:
    the exception of the callback, raised inside the [catch] block, is the
    one the call ends with, where the claim has the call return normally.
    And with a callback that returns: the search of B succeeds with two
    results of one title and source, and the returned sequence holds the
    higher-scored one only, where the claim has it hold exactly the
    results of the backends whose search succeeded. *)
Lemma failure_escapes_through_callback :
  succeeds "guide" (backend "A" (Normal true) (Throw "timeout")) = false
  /\ Promises.outcome
       (Promises.search
          [backend "A" (Normal true) (Throw "timeout");
           backend "B" (Normal true) (Normal [result "B" "Guide" 0.9])]
          (Some (throwingAt SearchProgress.error)) (fun _ => false) "guide"
          [1] [])
     = Throw "sink"
  /\ Promises.world
       (Promises.search
          [backend "A" (Normal true) (Throw "timeout");
           backend "B" (Normal true) (Normal [result "B" "Guide" 0.9])]
          (Some (throwingAt SearchProgress.error)) (fun _ => false) "guide"
          [1] [])
     = [ {| SearchProgress.source := "A";
            SearchProgress.status := SearchProgress.searching;
            SearchProgress.resultCount := None |};
         {| SearchProgress.source := "B";
            SearchProgress.status := SearchProgress.searching;
            SearchProgress.resultCount := None |};
         {| SearchProgress.source := "B";
            SearchProgress.status := SearchProgress.completed;
            SearchProgress.resultCount := Some 1 |};
         {| SearchProgress.source := "A";
            SearchProgress.status := SearchProgress.error;
            SearchProgress.resultCount := None |} ]
  /\ succeeds "guide"
       (backend "B" (Normal true)
          (Normal [result "B" "Guide" 0.9; result "B" "Guide" 0.5])) = true
  /\ Promises.outcome
       (Promises.search
          [backend "A" (Normal true) (Throw "timeout");
           backend "B" (Normal true)
             (Normal [result "B" "Guide" 0.9; result "B" "Guide" 0.5])]
          (Some recording) (fun _ => false) "guide" [1] [])
     = Normal [result "B" "Guide" 0.9]
  /\ ~ In (result "B" "Guide" 0.5) [result "B" "Guide" 0.9].
Proof.
  repeat split. intros [Heq | []]. discriminate Heq.
Qed.

Lemma relevance_failure_aborts_witness :
  Forall (answers "guide") [backend "Docs" (Normal false) (Normal [])]
  /\ isRelevantFor (backend "Broken" (Throw "boom") (Normal [])) "guide"
     = Throw "boom"
  /\ Promises.search
       ([backend "Docs" (Normal false) (Normal [])]
        ++ backend "Broken" (Throw "boom") (Normal [])
        :: [backend "Web" (Normal true) (Normal [result "Web" "Guide" 0.9]);
            backend "Worse" (Throw "bang") (Normal [])])
       (Some (throwingAt SearchProgress.searching)) (fun _ => false) "guide"
       [] []
     = {| Promises.outcome := Throw "boom";
          Promises.world := [];
          Promises.searched := [] |}.
Proof.
  assert (Hbefore : Forall (answers "guide")
                      [backend "Docs" (Normal false) (Normal [])]).
  { repeat constructor. exists false. reflexivity. }
  split; [exact Hbefore | split; [reflexivity |]].
  apply (@relevance_failure_aborts "guide" _
           (Some (throwingAt SearchProgress.searching)) (fun _ => false)
           [backend "Docs" (Normal false) (Normal [])]
           [backend "Web" (Normal true) (Normal [result "Web" "Guide" 0.9]);
            backend "Worse" (Throw "bang") (Normal [])]
           (backend "Broken" (Throw "boom") (Normal [])) "boom" [] []).
  - exact Hbefore.
  - reflexivity.
Defined.

Lemma search_result_independent_of_sink_and_schedule_witness :
  returns (Some recording)
  /\ returns (@None (Promises.Sink unit))
  /\ Promises.outcome
       (Promises.search
          [backend "A" (Normal true) (Throw "timeout");
           backend "B" (Normal true) (Normal [result "B" "Guide" 0.9]);
           backend "C" (Normal true) (Normal [result "C" "Notes" 0.95])]
          (Some recording) (fun _ => true) "guide" [2; 0] [])
     = Promises.outcome
         (Promises.search
            [backend "A" (Normal true) (Throw "timeout");
             backend "B" (Normal true) (Normal [result "B" "Guide" 0.9]);
             backend "C" (Normal true) (Normal [result "C" "Notes" 0.95])]
            (@None (Promises.Sink unit)) (fun _ => false) "guide" [1] tt).
Proof.
  split; [exact returns_recording | split; [exact (@returns_none unit) |]].
  apply (@search_result_independent_of_sink_and_schedule "guide"
           [backend "A" (Normal true) (Throw "timeout");
            backend "B" (Normal true) (Normal [result "B" "Guide" 0.9]);
            backend "C" (Normal true) (Normal [result "C" "Notes" 0.95])]
           _ _ (Some recording) (@None (Promises.Sink unit))
           (fun _ => true) (fun _ => false) [2; 0] [1] [] tt).
  - exact returns_recording.
  - exact (@returns_none unit).
Defined.

Lemma progress_log_shape_witness :
  exists terminal,
    Promises.world
      (Promises.search
         [backend "A" (Normal true) (Throw "timeout");
          backend "B" (Normal true) (Normal [result "B" "Guide" 0.9]);
          backend "C" (Normal true) (Throw "denied")]
         (Some recording) (fun ds => String.eqb (name ds) "A") "guide"
         [1] [])
    = List.concat
        (map (startEvents (fun ds => String.eqb (name ds) "A") "guide")
           [backend "A" (Normal true) (Throw "timeout");
            backend "B" (Normal true) (Normal [result "B" "Guide" 0.9]);
            backend "C" (Normal true) (Throw "denied")])
      ++ terminal
    /\ Permutation terminal
         (map (terminalEvent "guide")
            (List.filter
               (fun ds =>
                  negb (failsInCall (fun ds => String.eqb (name ds) "A")
                          "guide" ds))
               [backend "A" (Normal true) (Throw "timeout");
                backend "B" (Normal true) (Normal [result "B" "Guide" 0.9]);
                backend "C" (Normal true) (Throw "denied")]))
    /\ List.length
         (Promises.world
            (Promises.search
               [backend "A" (Normal true) (Throw "timeout");
                backend "B" (Normal true) (Normal [result "B" "Guide" 0.9]);
                backend "C" (Normal true) (Throw "denied")]
               (Some recording) (fun ds => String.eqb (name ds) "A") "guide"
               [1] []))
       = 2 * List.length
               [backend "A" (Normal true) (Throw "timeout");
                backend "B" (Normal true) (Normal [result "B" "Guide" 0.9]);
                backend "C" (Normal true) (Throw "denied")].
Proof.
  apply (@progress_log_shape "guide"
           [backend "A" (Normal true) (Throw "timeout");
            backend "B" (Normal true) (Normal [result "B" "Guide" 0.9]);
            backend "C" (Normal true) (Throw "denied")]
           (fun ds => String.eqb (name ds) "A")
           [1]
           [backend "A" (Normal true) (Throw "timeout");
            backend "B" (Normal true) (Normal [result "B" "Guide" 0.9]);
            backend "C" (Normal true) (Throw "denied")]).
  reflexivity.
Defined.

(** The log of the example: the failure of A is thrown by the call, that
    of C settles last. *)
Example progress_log_example :
  Promises.world
    (Promises.search
       [backend "A" (Normal true) (Throw "timeout");
        backend "B" (Normal true) (Normal [result "B" "Guide" 0.9]);
        backend "C" (Normal true) (Throw "denied")]
       (Some recording) (fun ds => String.eqb (name ds) "A") "guide"
       [0] [])
  = [ {| SearchProgress.source := "A";
         SearchProgress.status := SearchProgress.searching;
         SearchProgress.resultCount := None |};
      {| SearchProgress.source := "A";
         SearchProgress.status := SearchProgress.error;
         SearchProgress.resultCount := None |};
      {| SearchProgress.source := "B";
         SearchProgress.status := SearchProgress.searching;
         SearchProgress.resultCount := None |};
      {| SearchProgress.source := "C";
         SearchProgress.status := SearchProgress.searching;
         SearchProgress.resultCount := None |};
      {| SearchProgress.source := "B";
         SearchProgress.status := SearchProgress.completed;
         SearchProgress.resultCount := Some 1 |};
      {| SearchProgress.source := "C";
         SearchProgress.status := SearchProgress.error;
         SearchProgress.resultCount := None |} ].
Proof. reflexivity. Qed.

Lemma all_failed_returns_empty_witness :
  returns (Some recording)
  /\ QueryOrchestrator.sourcesToSearch
       [backend "A" (Normal true) (Throw "timeout");
        backend "B" (Normal false) (Throw "denied");
        backend "C" (Normal true) (Throw "offline")] "guide"
     = Normal
         [backend "A" (Normal true) (Throw "timeout");
          backend "C" (Normal true) (Throw "offline")]
  /\ Promises.outcome
       (Promises.search
          [backend "A" (Normal true) (Throw "timeout");
           backend "B" (Normal false) (Throw "denied");
           backend "C" (Normal true) (Throw "offline")]
          (Some recording) (fun ds => String.eqb (name ds) "C") "guide"
          [1] [])
     = Normal [].
Proof.
  split; [exact returns_recording | split; [reflexivity |]].
  apply (@all_failed_returns_empty "guide"
           [backend "A" (Normal true) (Throw "timeout");
            backend "B" (Normal false) (Throw "denied");
            backend "C" (Normal true) (Throw "offline")]
           _ (Some recording) (fun ds => String.eqb (name ds) "C") [1]
           [backend "A" (Normal true) (Throw "timeout");
            backend "C" (Normal true) (Throw "offline")] []).
  - exact returns_recording.
  - reflexivity.
  - repeat constructor.
Defined.

Lemma repository_backends_always_return_witness :
  returns (Some recording)
  /\ exists ranked,
       Promises.outcome
         (Promises.search
            [Backends.SlackDataSource lowerLatin
               (fun _ => Throw "rate limit");
             Backends.GoogleDocsDataSource lowerLatin
               (fun _ => Throw "denied");
             Backends.WebSearchDataSource
               (fun _ => Normal [result "Web" "Guide" 0.9])]
            (Some recording) (fun _ => false) "Design Guide" [2; 0] [])
       = Normal ranked.
Proof.
  split; [exact returns_recording |].
  apply (@repository_backends_always_return "Design Guide" lowerLatin
           [Backends.SlackDataSource lowerLatin
              (fun _ => Throw "rate limit");
            Backends.GoogleDocsDataSource lowerLatin
              (fun _ => Throw "denied");
            Backends.WebSearchDataSource
              (fun _ => Normal [result "Web" "Guide" 0.9])]
           _ (Some recording) (fun _ => false) [2; 0] []).
  - repeat constructor.
  - exact returns_recording.
Defined.
